(** * Notebook orchestration flows: feature-store provisioning and the
      tuning pipeline

    A shallow embedding of the control logic of the two notebooks
    [1-data-prep-e2e] (feature groups, offline-store wait, Athena join
    query, train/test split) and [sagemaker-pipelines-tuning-step]
    (step graph and the conditional registration branch).

    Remote services are black boxes: a remote call is modelled by the
    value it answers with, supplied by the environment, and every call,
    [print] and [time.sleep] is recorded in a trace. *)

From Stdlib Require Import Ascii String QArith.
From stdpp Require Import gmap strings list fin_maps sets.

Set Warnings "-register-all".

Open Scope string_scope.
Open Scope nat_scope.
Open Scope list_scope.

(** ** Python runtime: exceptions, results, the world *)

Module Py.

(** The exception classes the notebooks distinguish.  [KeyboardInterrupt]
    stands for the classes deriving from [BaseException] only. *)
Inductive exn_class :=
  | ClientError
  | ValueError
  | RuntimeError
  | AttributeError
  | KeyError
  | OtherException (name : string)
  | KeyboardInterrupt.

(** A botocore error response: [{"Error": {"Code": ...}}]; each level
    may be missing, as [dict.get] allows. *)
Record error_response := { resp_Error : option (option string) }.

Record exn := {
  exn_cls : exn_class;
  exn_msg : string;
  exn_response : option error_response
}.

(** [isinstance(e, Exception)] *)
Definition is_Exception (e : exn) : bool :=
  match exn_cls e with KeyboardInterrupt => false | _ => true end.

(** [isinstance(e, ValueError)] *)
Definition is_ValueError (e : exn) : bool :=
  match exn_cls e with ValueError => true | _ => false end.

Inductive event :=
  | EvDescribe (feature_group : string)
  | EvCreate (feature_group : string)
  | EvListObjects (bucket prefix : string)
  | EvCall (api : string)
  | EvIngest (feature_group : string) (max_workers : nat) (wait : bool)
  | EvPrint (line : string)
  | EvSleep (seconds : nat).

(** [polls] counts the remote polls answered so far: the environment
    answers the k-th poll of a loop with its k-th scripted response. *)
Record world := { polls : nat; trace : list event }.

Definition world0 : world := {| polls := 0; trace := [] |}.

(** [Running] is the verdict of a loop that is still iterating when the
    observation budget is spent; it is neither a return nor a raise. *)
Inductive result (A : Type) :=
  | Return (a : A)
  | Raise (e : exn)
  | Running.
Arguments Return {A} a.
Arguments Raise {A} e.
Arguments Running {A}.

Definition M (A : Type) : Type := world → result A * world.

Definition ret {A} (a : A) : M A := λ w, (Return a, w).

Definition bind {A B} (m : M A) (k : A → M B) : M B :=
  λ w, match m w with
       | (Return a, w') => k a w'
       | (Raise e, w') => (Raise e, w')
       | (Running, w') => (Running, w')
       end.

Definition raise {A} (e : exn) : M A := λ w, (Raise e, w).

Definition still_running {A} : M A := λ w, (Running, w).

Definition emit (ev : event) : M unit :=
  λ w, (Return tt, {| polls := polls w; trace := trace w ++ [ev] |}).

(** A remote poll: logs the call and advances the poll counter. *)
Definition poll {A} (ev : event) (answer : nat → A) : M A :=
  λ w, (Return (answer (polls w)),
        {| polls := S (polls w); trace := trace w ++ [ev] |}).

(** Any other library or remote call: it raises or answers. *)
Definition call {A} (ev : event) (outcome : exn + A) : M A :=
  λ w, (match outcome with inl e => Raise e | inr a => Return a end,
        {| polls := polls w; trace := trace w ++ [ev] |}).

Definition print (line : string) : M unit := emit (EvPrint line).
Definition sleep (seconds : nat) : M unit := emit (EvSleep seconds).

(** [try: body except <filter>: handler] *)
Definition try_except {A} (body : M A) (catches : exn → bool)
    (handler : exn → M A) : M A :=
  λ w, match body w with
       | (Raise e, w') => if catches e then handler e w' else (Raise e, w')
       | r => r
       end.

End Py.

Import Py.

#[global] Instance M_ret : MRet M := @ret.
#[global] Instance M_bind : MBind M := λ A B k m, bind m k.

(** ** Feature-group readiness poller *)

(** What the notebook uses of a [FeatureGroup]: its name, the scripted
    answers of [describe()], and how [create()] ends. *)
Record FeatureGroup := {
  name : string;
  describe_answers : nat → gmap string string;
  create_error : option exn
}.

Definition describe (fg : FeatureGroup) : M (gmap string string) :=
  poll (EvDescribe (name fg)) (describe_answers fg).

(** [feature_group.describe().get("FeatureGroupStatus")] *)
Definition describe_status (fg : FeatureGroup) : M (option string) :=
  d ← describe fg; mret (d !! "FeatureGroupStatus").

Definition creation_poll_interval : nat := 5.

(** [while status == "Creating": print; time.sleep(5); status = ...] *)
Fixpoint while_creating (fuel : nat) (fg : FeatureGroup)
    (status : option string) : M (option string) :=
  if decide (status = Some "Creating") then
    match fuel with
    | O => still_running
    | S fuel' =>
        print "Waiting for Feature Group Creation";;
        sleep creation_poll_interval;;
        status' ← describe_status fg;
        while_creating fuel' fg status'
    end
  else mret status.

Definition failed_to_create (fg : FeatureGroup) : exn :=
  {| exn_cls := RuntimeError;
     exn_msg := "Failed to create feature group " +:+ name fg;
     exn_response := None |}.

Definition wait_for_feature_group_creation_complete (fuel : nat)
    (feature_group : FeatureGroup) : M unit :=
  status ← describe_status feature_group;
  status ← while_creating fuel feature_group status;
  if decide (status ≠ Some "Created") then
    raise (failed_to_create feature_group)
  else
    print ("FeatureGroup " +:+ name feature_group +:+ " successfully created.").

(** ** Offline-store data-availability loop *)

Definition nl : string := String "010"%char EmptyString.
Definition dq : string := String "034"%char EmptyString.

(** What the notebook uses of the S3 client: the scripted answers of
    [list_objects]; an answer is a dict that may hold a ["Contents"]
    list of object keys. *)
Record S3Client := { list_objects_answers : nat → gmap string (list string) }.

Definition list_objects (s3_client : S3Client) (Bucket Prefix : string)
    : M (gmap string (list string)) :=
  poll (EvListObjects Bucket Prefix) (list_objects_answers s3_client).

Definition offline_poll_interval : nat := 60.

(** [while offline_store_contents is None: ...]; the test
    ["Contents" in d and len(d["Contents"]) > 1] short-circuits, so
    [d["Contents"]] is only read when the key is present. *)
Fixpoint while_offline_store_empty (fuel : nat) (s3_client : S3Client)
    (bucket prefix : string) (offline_store_contents : option (list string))
    : M (list string) :=
  match offline_store_contents with
  | Some contents => mret contents
  | None =>
      match fuel with
      | O => still_running
      | S fuel' =>
          objects_in_bucket ← list_objects s3_client bucket prefix;
          contents ←
            match objects_in_bucket !! "Contents" with
            | Some contents =>
                if bool_decide (1 < length contents) then mret (Some contents)
                else
                  print "Waiting for data in offline store...";;
                  sleep offline_poll_interval;;
                  mret None
            | None =>
                print "Waiting for data in offline store...";;
                sleep offline_poll_interval;;
                mret None
            end;
          while_offline_store_empty fuel' s3_client bucket prefix contents
      end
  end.

Definition wait_for_offline_store (fuel : nat) (s3_client : S3Client)
    (bucket prefix : string) : M (list string) :=
  contents ← while_offline_store_empty fuel s3_client bucket prefix None;
  print (nl +:+ "Data available.");;
  mret contents.

(** ** Reading traces *)

(** The arguments of the [time.sleep] calls of a trace, in order. *)
Definition sleeps (tr : list event) : list nat :=
  omap (λ ev, match ev with EvSleep d => Some d | _ => None end) tr.

Definition is_poll (ev : event) : bool :=
  match ev with
  | EvDescribe _ | EvListObjects _ _ => true
  | _ => false
  end.

(** The number of remote polls of a trace. *)
Definition remote_polls (tr : list event) : nat :=
  length (filter (λ ev, is_poll ev = true) tr).



(** The status the k-th poll after world [w] reports. *)
Definition status_at (fg : FeatureGroup) (w : world) (k : nat) : option string :=
  describe_answers fg (polls w + k) !! "FeatureGroupStatus".

(** The statuses the creation loop tests in turn when it is entered
    with [status] in world [w]: [status] itself, then the answers to the
    polls that follow. *)
Definition status_tested (fg : FeatureGroup) (w : world)
    (status : option string) (i : nat) : option string :=
  match i with
  | O => status
  | S j => status_at fg w j
  end.

(** One turn of the creation poller between two polls. *)
Definition creation_round (fg : FeatureGroup) : list event :=
  [EvPrint "Waiting for Feature Group Creation";
   EvSleep creation_poll_interval;
   EvDescribe (name fg)].

(** A listing that ends the offline-store wait. *)
Definition data_available (d : gmap string (list string)) : bool :=
  match d !! "Contents" with
  | Some contents => bool_decide (1 < length contents)
  | None => false
  end.

Definition listing_at (s3_client : S3Client) (w : world) (k : nat)
    : gmap string (list string) :=
  list_objects_answers s3_client (polls w + k).

Definition offline_round (bucket prefix : string) : list event :=
  [EvListObjects bucket prefix;
   EvPrint "Waiting for data in offline store...";
   EvSleep offline_poll_interval].

(** ** Dataframes *)

(** A pandas dataframe as the notebook uses it: column labels, and rows
    that pair an index label with one cell per column. *)
Record DataFrame := {
  columns : list string;
  records : list (Z * list string)
}.

Definition index (df : DataFrame) : list Z := (records df).*1.

(** The positions of the columns carrying a label. *)
Definition positions (cols : list string) (c : string) : list nat :=
  filter (λ i, cols !! i = Some c) (seq 0 (length cols)).

(** [df[c] = v] with a scalar [v]: overwrite the columns labelled [c]
    when there are some, append a column otherwise. *)
Definition set_column (df : DataFrame) (c v : string) : DataFrame :=
  match positions (columns df) c with
  | [] =>
      {| columns := columns df ++ [c];
         records := (λ r, (r.1, r.2 ++ [v])) <$> records df |}
  | ps =>
      {| columns := columns df;
         records := (λ r, (r.1, foldr (λ i cells, <[i := v]> cells) r.2 ps))
                    <$> records df |}
  end.

Definition key_error (label : string) : exn :=
  {| exn_cls := KeyError; exn_msg := label; exn_response := None |}.

Definition take_cells (ps : list nat) (cells : list string) : list string :=
  (λ p, cells !!! p) <$> ps.

(** The first of [labels] that [present] lacks, if any. *)
Definition first_missing {A} `{EqDecision A} (labels present : list A) : option A :=
  snd <$> list_find (λ l, l ∉ present) labels.

(** [df[labels]]: the columns carrying the labels, in the order asked
    for; [KeyError] when a label is not among the columns. *)
Definition getitem_columns (df : DataFrame) (labels : list string)
    : exn + DataFrame :=
  match first_missing labels (columns df) with
  | Some l => inl (key_error l)
  | None =>
      let ps := labels ≫= positions (columns df) in
      inr {| columns := take_cells ps (columns df);
             records := (λ r, (r.1, take_cells ps r.2)) <$> records df |}
  end.

(** [df.drop(labels, axis=1)] *)
Definition drop_columns (df : DataFrame) (labels : list string)
    : exn + DataFrame :=
  match first_missing labels (columns df) with
  | Some l => inl (key_error l)
  | None =>
      let ps := filter (λ i, columns df !!! i ∉ labels)
                       (seq 0 (length (columns df))) in
      inr {| columns := filter (λ c, c ∉ labels) (columns df);
             records := (λ r, (r.1, take_cells ps r.2)) <$> records df |}
  end.

(** [df.drop(index_labels)] *)
Definition drop_rows (df : DataFrame) (labels : list Z) : exn + DataFrame :=
  match first_missing labels (index df) with
  | Some l => inl (key_error "index label")
  | None =>
      inr {| columns := columns df;
             records := filter (λ r, r.1 ∉ labels) (records df) |}
  end.

(** Python's [round]: to the nearest integer, ties to the even one. *)
Definition round_half_even (x : Q) : Z :=
  let n := Qnum x in
  let d := Z.pos (Qden x) in
  let q := (n / d)%Z in
  match (2 * (n mod d) ?= d)%Z with
  | Lt => q
  | Gt => (q + 1)%Z
  | Eq => if Z.even q then q else (q + 1)%Z
  end.

(** [round(frac * len(df))] *)
Definition sample_size (frac : Q) (len : nat) : nat :=
  Z.to_nat (round_half_even (frac * inject_Z (Z.of_nat len))).

(** [df.sample(frac, random_state)] without replacement: the rows at the
    first [round(frac * len(df))] positions of the permutation [rng] of
    the row positions that the seeded generator draws. *)
Definition sample (df : DataFrame) (frac : Q) (rng : list nat) : DataFrame :=
  {| columns := columns df;
     records := omap (λ p, records df !! p)
                     (take (sample_size frac (length (records df))) rng) |}.

Definition and_then {A B} (r : exn + A) (k : A → exn + B) : exn + B :=
  match r with inl e => inl e | inr a => k a end.

(** [col_order = ["fraud"] + list(dataset.drop(["fraud", "policy_id"], axis=1).columns)] *)
Definition col_order (dataset : DataFrame) : exn + list string :=
  and_then (drop_columns dataset ["fraud"; "policy_id"])
           (λ rest, inr ("fraud" :: columns rest)).

(** [train = dataset.sample(frac=0.80, random_state=0)[col_order]]
    [test = dataset.drop(train.index)[col_order]] *)
Definition train_test_split (dataset : DataFrame) (rng : list nat)
    : exn + (DataFrame * DataFrame) :=
  and_then (col_order dataset) (λ col_order,
  and_then (getitem_columns (sample dataset (8 # 10) rng) col_order) (λ train,
  and_then (drop_rows dataset (index train)) (λ rest,
  and_then (getitem_columns rest col_order) (λ test,
  inr (train, test))))).

(** ** Guarded cells of the data-preparation notebook *)

(** The outcomes of the library calls the guarded cells make.  The
    two [wr_read_*] outcomes cover building the S3 path from
    [flow_output_path] and reading it. *)
Record Env := {
  get_execution_role : exn + string;
  iam_get_role : exn + string;
  wr_read_claims : exn + DataFrame;
  wr_read_customers : exn + DataFrame;
  pd_read_claims : exn + DataFrame;
  pd_read_customers : exn + DataFrame;
  now : string
}.

(** [try: sagemaker_role = sagemaker.get_execution_role()]
    [except ValueError: ... iam.get_role(...)["Role"]["Arn"]] *)
Definition resolve_sagemaker_role (env : Env) : M string :=
  try_except
    (call (EvCall "sagemaker.get_execution_role") (get_execution_role env))
    is_ValueError
    (λ _,
       sagemaker_role ← call (EvCall "iam.get_role") (iam_get_role env);
       print (nl +:+ " instantiating sagemaker_role with supplied role name : "
              +:+ sagemaker_role);;
       mret sagemaker_role).

(** [try: <read the Data Wrangler output>  except: <read local copies>];
    the bare [except:] takes every exception. *)
Definition load_preprocessed (env : Env) : M (DataFrame * DataFrame) :=
  try_except
    (claims_preprocessed ← call (EvCall "wr.s3.read_csv") (wr_read_claims env);
     customers_preprocessed ← call (EvCall "wr.s3.read_csv") (wr_read_customers env);
     mret (claims_preprocessed, customers_preprocessed))
    (λ _, true)
    (λ _,
       print "Unable to load Data Wrangler output. Loading pre-made dataframes...";;
       claims_preprocessed ← call (EvCall "pd.read_csv") (pd_read_claims env);
       let claims_preprocessed :=
         set_column claims_preprocessed "event_time" (now env) in
       customers_preprocessed ← call (EvCall "pd.read_csv") (pd_read_customers env);
       let customers_preprocessed :=
         set_column customers_preprocessed "event_time" (now env) in
       print "Complete";;
       mret (claims_preprocessed, customers_preprocessed)).

Definition create (fg : FeatureGroup) : M unit :=
  call (EvCreate (name fg))
       (match create_error fg with Some e => inl e | None => inr tt end).

Definition no_attribute (attr : string) : exn :=
  {| exn_cls := AttributeError;
     exn_msg := "object has no attribute '" +:+ attr +:+ "'";
     exn_response := None |}.

(** [e.response.get("Error").get("Code")]: reading [response] off an
    exception without one, or [get] off a missing ["Error"], raises
    [AttributeError]. *)
Definition error_code (e : exn) : M (option string) :=
  match exn_response e with
  | None => raise (no_attribute "response")
  | Some response =>
      match resp_Error response with
      | None => raise (no_attribute "get")
      | Some code => mret code
      end
  end.

(** [try: fg.create(...); print(SUCCESS)]
    [except Exception as e: code = ...;]
    [  if code == "ResourceInUse": print(...) else: raise (e)];
    [preamble] is what the cell prints before the call. *)
Definition create_feature_group (preamble : M unit) (fg : FeatureGroup)
    (label : string) : M unit :=
  try_except
    (preamble;;
     create fg;;
     print ("Create " +:+ dq +:+ label +:+ dq +:+ " feature group: SUCCESS"))
    is_Exception
    (λ e,
       code ← error_code e;
       if decide (code = Some "ResourceInUse") then
         print ("Using existing feature group: " +:+ name fg)
       else raise e).


Definition create_customers_feature_group
    (customers_feature_group : FeatureGroup) : M unit :=
  create_feature_group (mret tt) customers_feature_group "customers".

(** ** The Athena join query *)

Inductive dtype := int | float.

Definition claims_dtypes : list (string * dtype) :=
  [("policy_id", int); ("incident_severity", int);
   ("num_vehicles_involved", int); ("num_injuries", int);
   ("num_witnesses", int); ("police_report_available", int);
   ("injury_claim", float); ("vehicle_claim", float);
   ("total_claim_amount", float); ("incident_month", int);
   ("incident_day", int); ("incident_dow", int); ("incident_hour", int);
   ("fraud", int); ("driver_relationship_self", int);
   ("driver_relationship_na", int); ("driver_relationship_spouse", int);
   ("driver_relationship_child", int); ("driver_relationship_other", int);
   ("incident_type_collision", int); ("incident_type_breakin", int);
   ("incident_type_theft", int); ("collision_type_front", int);
   ("collision_type_rear", int); ("collision_type_side", int);
   ("collision_type_na", int); ("authorities_contacted_police", int);
   ("authorities_contacted_none", int); ("authorities_contacted_fire", int);
   ("authorities_contacted_ambulance", int); ("event_time", float)].

Definition customers_dtypes : list (string * dtype) :=
  [("policy_id", int); ("customer_age", int); ("customer_education", int);
   ("months_as_customer", int); ("policy_deductable", int);
   ("policy_annual_premium", int); ("policy_liability", int);
   ("auto_year", int); ("num_claims_past_year", int);
   ("num_insurers_past_5_years", int); ("customer_gender_male", int);
   ("customer_gender_female", int); ("policy_state_ca", int);
   ("policy_state_wa", int); ("policy_state_az", int);
   ("policy_state_or", int); ("policy_state_nv", int);
   ("policy_state_id", int); ("event_time", float)].

(** [set(a) ^ set(b)] *)
Definition symmetric_difference (X Y : gset string) : gset string :=
  (X ∖ Y) ∪ (Y ∖ X).

(** [list(set(claims.columns) ^ set(customers.columns))].  Python leaves
    the iteration order of a set open; [elements] fixes one order and
    the properties below are stated for every rearrangement of it. *)
Definition feature_columns (claims_preprocessed customers_preprocessed : DataFrame)
    : list string :=
  elements (symmetric_difference (list_to_set (columns claims_preprocessed))
                                 (list_to_set (columns customers_preprocessed))).

(** [f'"{c}"'] *)
Definition quoted (c : string) : string := dq +:+ c +:+ dq.

(** [", ".join(f'"{c}"' for c in feature_columns)] prefixed with the
    aliased [policy_id] of the claims table. *)
Definition feature_columns_string (claims_table : string)
    (feature_columns : list string) : string :=
  (quoted claims_table +:+ ".policy_id as policy_id, ")
  +:+ String.concat ", " (quoted <$> feature_columns).

Definition query_string (claims_table customers_table : string)
    (feature_columns_string : string) : string :=
  nl +:+ "SELECT DISTINCT " +:+ feature_columns_string +:+ nl
  +:+ "FROM " +:+ quoted claims_table
  +:+ " LEFT JOIN " +:+ quoted customers_table +:+ " " +:+ nl
  +:+ "ON " +:+ quoted claims_table +:+ ".policy_id = "
  +:+ quoted customers_table +:+ ".policy_id" +:+ nl.

(** The query the notebook sends for two dataframes, with the feature
    columns taken in the order [feature_columns]. *)
Definition join_query (claims_table customers_table : string)
    (feature_columns : list string) : string :=
  query_string claims_table customers_table
    (feature_columns_string claims_table feature_columns).

(** ** A recogniser for the SQL the notebook emits *)

Module Sql.

Inductive token :=
  | TWord (w : string)      (* keyword or bare identifier *)
  | TQuoted (s : string)    (* "delimited identifier" *)
  | TComma
  | TDot
  | TEq.

Definition quote_char : ascii := "034"%char.

Definition is_space (c : ascii) : bool :=
  match c with
  | "009" | "010" | "013" | " " => true
  | _ => false
  end%char.

(** Letters, digits and the underscore. *)
Definition is_word_char (c : ascii) : bool :=
  let n := N_of_ascii c in
  ((48 <=? n) && (n <=? 57) || (65 <=? n) && (n <=? 90)
   || (97 <=? n) && (n <=? 122) || (n =? 95))%N.

Definition snoc (s : string) (c : ascii) : string := s +:+ String c EmptyString.

Inductive mode := Out | Word (acc : string) | Quote (acc : string).

(** A character met outside any word or quote. *)
Definition lex_outside (c : ascii) (continue : mode → option (list token))
    : option (list token) :=
  if is_space c then continue Out
  else if decide (c = quote_char) then continue (Quote EmptyString)
  else if decide (c = ","%char) then cons TComma <$> continue Out
  else if decide (c = "."%char) then cons TDot <$> continue Out
  else if decide (c = "="%char) then cons TEq <$> continue Out
  else if is_word_char c then continue (Word (String c EmptyString))
  else None.

Fixpoint lex (m : mode) (s : string) : option (list token) :=
  match s with
  | EmptyString =>
      match m with
      | Out => Some []
      | Word w => Some [TWord w]
      | Quote _ => None
      end
  | String c s' =>
      match m with
      | Quote q =>
          if decide (c = quote_char) then cons (TQuoted q) <$> lex Out s'
          else lex (Quote (snoc q c)) s'
      | Word w =>
          if is_word_char c then lex (Word (snoc w c)) s'
          else cons (TWord w) <$> lex_outside c (λ m', lex m' s')
      | Out => lex_outside c (λ m', lex m' s')
      end
  end.

(** States of the recogniser, named after what has just been read. *)
Inductive state :=
  | Start | Select
  | ItemStart          (* after DISTINCT or a comma: an item must follow *)
  | ItemTable | ItemDot | ItemColumn | ItemAs | ItemAlias
  | From | FromTable | Left | Join | JoinTable | On
  | OnLeftTable | OnLeftDot | OnLeftColumn | OnEq
  | OnRightTable | OnRightDot | Done.

Definition nonempty (s : string) : bool :=
  match s with EmptyString => false | _ => true end.

Definition after_item (t : token) : option state :=
  match t with
  | TComma => Some ItemStart
  | TWord "FROM" => Some From
  | _ => None
  end.

Definition step (st : state) (t : token) : option state :=
  match st, t with
  | Start, TWord "SELECT" => Some Select
  | Select, TWord "DISTINCT" => Some ItemStart
  | ItemStart, TQuoted q => if nonempty q then Some ItemTable else None
  | ItemTable, TDot => Some ItemDot
  | ItemTable, TWord "as" => Some ItemAs
  | ItemTable, _ => after_item t
  | ItemDot, TWord _ => Some ItemColumn
  | ItemColumn, TWord "as" => Some ItemAs
  | ItemColumn, _ => after_item t
  | ItemAs, TWord _ => Some ItemAlias
  | ItemAlias, _ => after_item t
  | From, TQuoted q => if nonempty q then Some FromTable else None
  | FromTable, TWord "LEFT" => Some Left
  | Left, TWord "JOIN" => Some Join
  | Join, TQuoted q => if nonempty q then Some JoinTable else None
  | JoinTable, TWord "ON" => Some On
  | On, TQuoted q => if nonempty q then Some OnLeftTable else None
  | OnLeftTable, TDot => Some OnLeftDot
  | OnLeftDot, TWord _ => Some OnLeftColumn
  | OnLeftColumn, TEq => Some OnEq
  | OnEq, TQuoted q => if nonempty q then Some OnRightTable else None
  | OnRightTable, TDot => Some OnRightDot
  | OnRightDot, TWord _ => Some Done
  | _, _ => None
  end.

Fixpoint accepts (st : state) (ts : list token) : bool :=
  match ts with
  | [] => match st with Done => true | _ => false end
  | t :: ts' =>
      match step st t with
      | Some st' => accepts st' ts'
      | None => false
      end
  end.

(** A query is well formed when it lexes and its tokens spell
    [SELECT DISTINCT item, ..., item FROM "t" LEFT JOIN "u" ON "t".c = "u".d]
    with at least one item and no empty one. *)
Definition well_formed (query : string) : bool :=
  match lex Out query with
  | Some ts => accepts Start ts
  | None => false
  end.

(** A name that can stand between double quotes. *)
Fixpoint quote_free (s : string) : bool :=
  match s with
  | EmptyString => true
  | String c s' => negb (bool_decide (c = quote_char)) && quote_free s'
  end.

Definition valid_name (s : string) : bool := nonempty s && quote_free s.

(** The tokens of the select items that follow the aliased policy id. *)
Definition item_tokens (feature_columns : list string) : list token :=
  concat ((λ c, [TComma; TQuoted c]) <$> feature_columns).

(** The tokens of the notebook's query. *)
Definition query_tokens (claims_table customers_table : string)
    (feature_columns : list string) : list token :=
  [TWord "SELECT"; TWord "DISTINCT";
   TQuoted claims_table; TDot; TWord "policy_id"; TWord "as"; TWord "policy_id"]
  ++ item_tokens feature_columns
  ++ [TWord "FROM"; TQuoted claims_table;
      TWord "LEFT"; TWord "JOIN"; TQuoted customers_table;
      TWord "ON"; TQuoted claims_table; TDot; TWord "policy_id"; TEq;
      TQuoted customers_table; TDot; TWord "policy_id"].

End Sql.

(** ** The tuning pipeline: declarations *)

Module Pipeline.

(** JSON documents; numbers are the finite floats, read as rationals
    (comparison of finite floats is exact). *)
Inductive json :=
  | JNull
  | JNum (q : Q)
  | JStr (s : string)
  | JObj (fields : list (string * json)).

(** The value of the first field carrying a key, as [dict] lookup on
    a parsed object. *)
Definition field {V} (key : string) (fields : list (string * V)) : option V :=
  (λ hit, hit.2.2) <$> list_find (λ kv, kv.1 = key) fields.

(** Split a string at every occurrence of a character. *)
Fixpoint split_on (sep : ascii) (s : string) : list string :=
  match s with
  | EmptyString => [EmptyString]
  | String c s' =>
      if decide (c = sep) then EmptyString :: split_on sep s'
      else match split_on sep s' with
           | [] => [String c EmptyString]
           | w :: ws => String c w :: ws
           end
  end.

Fixpoint json_at (path : list string) (doc : json) : option json :=
  match path with
  | [] => Some doc
  | key :: path' =>
      match doc with
      | JObj fields => field key fields ≫= json_at path'
      | _ => None
      end
  end.

(** [PropertyFile(name, output_name, path)] *)
Record PropertyFile := {
  pf_name : string;
  pf_output_name : string;
  pf_path : string
}.

#[global] Instance PropertyFile_eq_dec : EqDecision PropertyFile.
Proof. solve_decision. Defined.

(** What a step argument may point at in another step. *)
Inductive reference :=
  (* [step.properties.ProcessingOutputConfig.Outputs[o].S3Output.S3Uri] *)
  | ProcessingOutputUri (step output_name : string)
  (* [step.get_top_model_s3_uri(top_k, s3_bucket)] *)
  | TopModelS3Uri (step : string) (top_k : nat)
  (* [JsonGet(step_name, property_file, json_path)] *)
  | JsonGet (step : string) (property_file : PropertyFile) (json_path : string).

Definition referenced_step (r : reference) : string :=
  match r with
  | ProcessingOutputUri s _ | TopModelS3Uri s _ | JsonGet s _ _ => s
  end.

Inductive comparison_kind :=
  | Equals | GreaterThan | GreaterThanOrEqualTo | LessThan | LessThanOrEqualTo.

(** [Condition<kind>(left, right)] with a literal on the right. *)
Record Condition := {
  cond_kind : comparison_kind;
  cond_left : reference;
  cond_right : Q
}.

Definition ConditionLessThanOrEqualTo (left : reference) (right : Q) : Condition :=
  {| cond_kind := LessThanOrEqualTo; cond_left := left; cond_right := right |}.

Inductive model_action := CreateModel | RegisterModel.

Inductive Step :=
  | ProcessingStep (name : string) (inputs : list reference)
      (outputs : list string) (property_files : list PropertyFile)
  | TuningStep (name : string) (inputs : list (string * reference))
      (max_jobs : nat)
  | ModelStep (name : string) (action : model_action) (model_data : reference)
  | ConditionStep (name : string) (conditions : list Condition)
      (if_steps else_steps : list Step).

Definition step_name (s : Step) : string :=
  match s with
  | ProcessingStep n _ _ _ | TuningStep n _ _ | ModelStep n _ _
  | ConditionStep n _ _ _ => n
  end.

(** Every reference a step declares, those of the steps of its branches
    included. *)
Fixpoint references (s : Step) : list reference :=
  match s with
  | ProcessingStep _ inputs _ _ => inputs
  | TuningStep _ inputs _ => inputs.*2
  | ModelStep _ _ model_data => [model_data]
  | ConditionStep _ conditions if_steps else_steps =>
      (cond_left <$> conditions)
      ++ concat (List.map references if_steps)
      ++ concat (List.map references else_steps)
  end.

(** Does step [s] declare what reference [r] points at? *)
Definition provides (s : Step) (r : reference) : bool :=
  bool_decide (step_name s = referenced_step r) &&
  match r, s with
  | ProcessingOutputUri _ o, ProcessingStep _ _ outputs _ =>
      bool_decide (o ∈ outputs)
  | TopModelS3Uri _ top_k, TuningStep _ _ max_jobs =>
      bool_decide (top_k < max_jobs)
  | JsonGet _ pf _, ProcessingStep _ _ outputs property_files =>
      bool_decide (pf ∈ property_files)
      && bool_decide (pf_output_name pf ∈ outputs)
  | _, _ => false
  end.

(** Every reference of every step of [later] is provided by a step
    standing before it. *)
Fixpoint declared_in_order (earlier later : list Step) : bool :=
  match later with
  | [] => true
  | s :: later' =>
      forallb (λ r, existsb (λ t, provides t r) earlier) (references s)
      && declared_in_order (earlier ++ [s]) later'
  end.

(** Step number [i] of a step list refers to an output of step number
    [j]. *)
Definition depends_on (steps : list Step) (i j : nat) : Prop :=
  ∃ s t r,
    steps !! i = Some s ∧ steps !! j = Some t
    ∧ r ∈ references s ∧ referenced_step r = step_name t.

(** *** The notebook's steps *)

Definition step_process : Step :=
  ProcessingStep "PreprocessAbaloneDataForHPO" []
    ["train"; "validation"; "test"] [].

Definition step_tuning : Step :=
  TuningStep "HPTuning"
    [("train", ProcessingOutputUri (step_name step_process) "train");
     ("validation", ProcessingOutputUri (step_name step_process) "validation")]
    3.

Definition step_create_first : Step :=
  ModelStep "CreateBestModel" CreateModel
    (TopModelS3Uri (step_name step_tuning) 0).

Definition step_create_second : Step :=
  ModelStep "CreateSecondBestModel" CreateModel
    (TopModelS3Uri (step_name step_tuning) 1).

Definition evaluation_report : PropertyFile :=
  {| pf_name := "BestTuningModelEvaluationReport";
     pf_output_name := "evaluation";
     pf_path := "evaluation.json" |}.

Definition step_eval : Step :=
  ProcessingStep "EvaluateTopModel"
    [TopModelS3Uri (step_name step_tuning) 0;
     ProcessingOutputUri (step_name step_process) "test"]
    ["evaluation"] [evaluation_report].

Definition step_register_best : Step :=
  ModelStep "RegisterBestAbaloneModel" RegisterModel
    (TopModelS3Uri (step_name step_tuning) 0).

Definition cond_lte : Condition :=
  ConditionLessThanOrEqualTo
    (JsonGet (step_name step_eval) evaluation_report
       "regression_metrics.mse.value")
    6.

Definition step_cond : Step :=
  ConditionStep "CheckMSEAbaloneEvaluation" [cond_lte]
    [step_register_best] [].

Definition pipeline_steps : list Step :=
  [step_process; step_tuning; step_create_first; step_create_second;
   step_eval; step_cond].

(** *** The condition step at run time *)

(** [report_dict] of [code/evaluate.py]. *)
Definition report_dict (mse std : Q) : json :=
  JObj [("regression_metrics",
         JObj [("mse", JObj [("value", JNum mse);
                             ("standard_deviation", JNum std)])])].

(** The property files the finished steps have written, by step name
    and property-file name. *)
Definition property_store := string → string → option json.

Definition compare (k : comparison_kind) (l r : Q) : bool :=
  match k with
  | Equals => Qeq_bool l r
  | GreaterThan => negb (Qle_bool l r)
  | GreaterThanOrEqualTo => Qle_bool r l
  | LessThan => negb (Qle_bool r l)
  | LessThanOrEqualTo => Qle_bool l r
  end.

(** A condition holds, fails, or cannot be evaluated ([None]) when its
    left side does not resolve to a number. *)
Definition eval_condition (store : property_store) (c : Condition) : option bool :=
  match cond_left c with
  | JsonGet step pf json_path =>
      match store step (pf_name pf) ≫= json_at (split_on "." json_path) with
      | Some (JNum v) => Some (compare (cond_kind c) v (cond_right c))
      | _ => None
      end
  | _ => None
  end.

(** The branch a condition step hands to the engine: [if_steps] when all
    conditions hold, [else_steps] otherwise. *)
Definition selected_branch (store : property_store) (s : Step) : option (list Step) :=
  match s with
  | ConditionStep _ conditions if_steps else_steps =>
      outcomes ← mapM (eval_condition store) conditions;
      Some (if forallb id outcomes then if_steps else else_steps)
  | _ => None
  end.

(** The store once [step_eval] has written its report. *)
Definition store_after_eval (mse std : Q) : property_store :=
  λ step file,
    if decide (step = step_name step_eval ∧ file = pf_name evaluation_report)
    then Some (report_dict mse std) else None.

End Pipeline.

(** ** Scripted environments *)

(** A describe script that answers ["Creating"] to the first [n] polls
    and [final] from then on. *)
Definition scripted_group (n : nat) (final : string) : FeatureGroup :=
  {| name := "fraud-detect-demo-claims";
     describe_answers := λ i,
       if i <? n then {["FeatureGroupStatus" := "Creating"]}
       else {["FeatureGroupStatus" := final]};
     create_error := None |}.

(** An S3 script whose first [n] listings hold [early] and the later
    ones [late]. *)
Definition scripted_s3 (n : nat) (early late : gmap string (list string))
    : S3Client :=
  {| list_objects_answers := λ i, if i <? n then early else late |}.

(** A feature group whose [create()] raises [e]. *)
Definition group_failing_with (e : exn) : FeatureGroup :=
  {| name := "fraud-detect-demo-claims";
     describe_answers := λ _, ∅;
     create_error := Some e |}.

(** The exception of the unset [flow_output_path]. *)
Definition name_error : exn :=
  {| exn_cls := OtherException "NameError";
     exn_msg := "name 'flow_output_path' is not defined";
     exn_response := None |}.

Definition client_error (code : string) : exn :=
  {| exn_cls := ClientError;
     exn_msg := "An error occurred (" +:+ code +:+ ")";
     exn_response := Some {| resp_Error := Some (Some code) |} |}.

Definition tiny_frame (cols : list string) : DataFrame :=
  {| columns := cols; records := [(0%Z, (λ _, "0") <$> cols)] |}.

(** A session in which the Data Wrangler job was never run. *)
Definition env_without_wrangler : Env :=
  {| get_execution_role := inr "arn:aws:iam::1:role/service-role/demo";
     iam_get_role := inr "arn:aws:iam::1:role/demo";
     wr_read_claims := inl name_error;
     wr_read_customers := inl name_error;
     pd_read_claims := inr (tiny_frame ["policy_id"; "fraud"]);
     pd_read_customers := inr (tiny_frame ["policy_id"; "customer_age"]);
     now := "1700000000.0" |}.

(** An SDK-side failure before any request is sent: no [response]. *)
Definition value_error : exn :=
  {| exn_cls := ValueError;
     exn_msg := "Must specify a valid role";
     exn_response := None |}.

(** The two dataframes with exactly the declared columns. *)
Definition claims_frame : DataFrame := tiny_frame claims_dtypes.*1.
Definition customers_frame : DataFrame := tiny_frame customers_dtypes.*1.

(** Two dataframes that share all their columns. *)
Definition keys_only_frame : DataFrame := tiny_frame ["policy_id"; "event_time"].

(** A joined dataset of five rows. *)
Definition small_dataset : DataFrame :=
  {| columns := ["policy_id"; "incident_severity"; "fraud"; "customer_age"];
     records := [(0%Z, ["11"; "1"; "0"; "40"]); (1%Z, ["12"; "2"; "1"; "31"]);
                 (2%Z, ["13"; "1"; "0"; "55"]); (3%Z, ["14"; "3"; "0"; "23"]);
                 (4%Z, ["15"; "2"; "1"; "62"])] |}.

(** ** Proof automation *)

(** Settle a closed decidable goal by evaluation. *)
Ltac by_evaluation :=
  match goal with
  | |- ?P => apply (bool_decide_unpack P); vm_compute; exact I
  end.

(** ** Splitting paths and ARNs *)

(** [c] does not occur in [s]. *)
Fixpoint lacks (c : ascii) (s : string) : bool :=
  match s with
  | EmptyString => true
  | String c' s' => negb (bool_decide (c' = c)) && lacks c s'
  end.

(** The number of occurrences of [c] in [s]. *)
Fixpoint occurrences (c : ascii) (s : string) : nat :=
  match s with
  | EmptyString => 0
  | String c' s' => (if decide (c' = c) then 1 else 0) + occurrences c s'
  end.

Definition index_error : exn :=
  {| exn_cls := OtherException "IndexError";
     exn_msg := "list index out of range";
     exn_response := None |}.

(** [sagemaker.get_execution_role().split("/")[-1]] *)
Definition role_name (arn : string) : exn + string :=
  match last (Pipeline.split_on "/" arn) with
  | Some n => inr n
  | None => inl index_error
  end.

(** [code/preprocess.py]:
    [bucket = input_data.split("/")[2]]
    [key = "/".join(input_data.split("/")[3:])] *)
Definition parse_input_data (input_data : string) : exn + (string * string) :=
  let parts := Pipeline.split_on "/" input_data in
  match parts !! 2 with
  | None => inl index_error
  | Some bucket => inr (bucket, String.concat "/" (drop 3 parts))
  end.

(** ** Dictionaries of [code/preprocess.py] *)

(** A Python dict as its bindings in insertion order, keys distinct.
    [d[k] = v]: overwrite in place the binding of [k], or append one. *)
Fixpoint dict_set {V} (k : string) (v : V) (d : list (string * V))
    : list (string * V) :=
  match d with
  | [] => [(k, v)]
  | (k', v') :: d' =>
      if decide (k' = k) then (k, v) :: d' else (k', v') :: dict_set k v d'
  end.

(** [d.update(other)] *)
Definition dict_update {V} (d other : list (string * V)) : list (string * V) :=
  foldl (λ acc kv, dict_set kv.1 kv.2 acc) d other.

(** [def merge_two_dicts(x, y): z = x.copy(); z.update(y); return z] *)
Definition merge_two_dicts {V} (x y : list (string * V)) : list (string * V) :=
  let z := x in
  dict_update z y.

Inductive np_dtype := np_str | np_float64.

Definition feature_columns_names : list string :=
  ["sex"; "length"; "diameter"; "height"; "whole_weight"; "shucked_weight";
   "viscera_weight"; "shell_weight"].

Definition label_column : string := "rings".

Definition feature_columns_dtype : list (string * np_dtype) :=
  [("sex", np_str); ("length", np_float64); ("diameter", np_float64);
   ("height", np_float64); ("whole_weight", np_float64);
   ("shucked_weight", np_float64); ("viscera_weight", np_float64);
   ("shell_weight", np_float64)].

Definition label_column_dtype : list (string * np_dtype) :=
  [("rings", np_float64)].

(** ** Arrays of [code/preprocess.py] and [code/evaluate.py] *)

Definition shape_error : exn :=
  {| exn_cls := ValueError;
     exn_msg := "all the input array dimensions except for the concatenation axis must match exactly";
     exn_response := None |}.

(** [y.to_numpy().reshape(len(y), 1)]: one row per label. *)
Definition reshape_column (y : list Q) : list (list Q) := (λ v, [v]) <$> y.

(** [np.concatenate((A, B), axis=1)] of two 2-d arrays given by rows. *)
Definition concatenate_axis1 (A B : list (list Q)) : exn + list (list Q) :=
  if decide (length A = length B) then inr (zip_with app A B)
  else inl shape_error.

(** [np.split(X, [a, b])]: the slices [X[:a]], [X[a:b]] and [X[b:]]. *)
Definition np_split (X : list (list Q)) (a b : nat)
    : list (list Q) * list (list Q) * list (list Q) :=
  (take a X, drop a (take b X), drop b X).

(** The end of the script: label column first, shuffle, split in three.
    [shuffle] is what [np.random.shuffle] does to the rows; [a] and [b]
    stand for [int(0.7 * len(X))] and [int(0.85 * len(X))], which the
    script computes in floating point. *)
Definition split_datasets (y : list Q) (X_pre : list (list Q))
    (shuffle : list (list Q) → list (list Q)) (a b : nat)
    : exn + (list (list Q) * list (list Q) * list (list Q)) :=
  and_then (concatenate_axis1 (reshape_column y) X_pre) (λ X,
  let X := shuffle X in
  inr (np_split X a b)).

Definition empty_data_error : exn :=
  {| exn_cls := OtherException "EmptyDataError";
     exn_msg := "No columns to parse from file";
     exn_response := None |}.

(** [code/evaluate.py] on the rows of the file it reads, a file holding
    the numbers it was written with:
    [df = pd.read_csv(test_path, header=None)], which fails on a file
    without rows, then [y_test = df.iloc[:, 0]] and
    [df.drop(df.columns[0], axis=1)]; [iloc[:, 0]] fails on a frame
    without columns. *)
Definition labels_and_features (file : list (list Q))
    : exn + (list Q * list (list Q)) :=
  match file with
  | [] => inl empty_data_error
  | _ =>
      match mapM (λ row, match row with
                         | [] => None
                         | v :: rest => Some (v, rest)
                         end) file with
      | Some pairs => inr (pairs.*1, pairs.*2)
      | None => inl index_error
      end
  end.

(** ** Further scripted environments *)

(** A session with neither Data Wrangler output nor local copies, and
    without an execution role. *)
Definition env_without_data : Env :=
  {| get_execution_role := inl value_error;
     iam_get_role := inl (client_error "AccessDenied");
     wr_read_claims := inl name_error;
     wr_read_customers := inl name_error;
     pd_read_claims := inl (client_error "NoSuchFile");
     pd_read_customers := inl (client_error "NoSuchFile");
     now := "1700000000.0" |}.

(** A session in which the claims output of the Data Wrangler job can
    be read and the customers output cannot. *)
Definition env_without_customers_output : Env :=
  {| get_execution_role := inr "arn:aws:iam::1:role/service-role/demo";
     iam_get_role := inr "arn:aws:iam::1:role/demo";
     wr_read_claims := inr (tiny_frame ["policy_id"; "fraud"; "event_time"]);
     wr_read_customers := inl (client_error "NoSuchKey");
     pd_read_claims := inr (tiny_frame ["policy_id"; "fraud"]);
     pd_read_customers := inl (client_error "NoSuchFile");
     now := "1700000000.0" |}.

(** ** Shape of a dataframe *)

(** Every row holds one cell per column. *)
Definition aligned (df : DataFrame) : Prop :=
  Forall (λ r, length r.2 = length (columns df)) (records df).

(** The rows of [df] restricted to the columns carrying [labels], as
    [df[labels]] lays them out. *)
Definition project_rows (df : DataFrame) (labels : list string)
    : list (Z * list string) :=
  (λ r, (r.1, take_cells (labels ≫= positions (columns df)) r.2))
  <$> records df.

(** ** Cells guarded by [locals()] *)

(** [fg.describe()["OfflineStoreConfig"]["DataCatalogConfig"]["TableName"]];
    a nested entry of the answer is keyed by the dotted path of its
    keys, and subscripting a missing entry raises [KeyError]. *)
Definition table_name (fg : FeatureGroup) : M string :=
  d ← describe fg;
  match d !! "OfflineStoreConfig.DataCatalogConfig.TableName" with
  | Some t => mret t
  | None => raise (key_error "TableName")
  end.

(** [f"{prefix}/{account_id}/sagemaker/{region}/offline-store/{table}/data"] *)
Definition offline_store_prefix (prefix account_id region table : string)
    : string :=
  prefix +:+ "/" +:+ account_id +:+ "/sagemaker/" +:+ region
  +:+ "/offline-store/" +:+ table +:+ "/data".

(** The names the offline-store cell binds. *)
Definition offline_store_cell_binds : list string :=
  ["claims_table"; "customers_table"; "claims_feature_group_s3_prefix";
   "customers_feature_group_s3_prefix"; "offline_store_contents";
   "objects_in_bucket"].

(** The cell that waits for the offline store.  [locals] holds the
    session's string-valued variables by name.  The cell returns them
    as it leaves them, with the list it binds [offline_store_contents]
    to: the two table names are bound if they were not, the two
    prefixes are rebound, and [offline_store_contents] and
    [objects_in_bucket], rebound to a list and a dict, are no string
    variables afterwards. *)
Definition offline_store_cell (fuel : nat) (s3_client : S3Client)
    (claims_feature_group customers_feature_group : FeatureGroup)
    (bucket prefix account_id region : string)
    (locals : gmap string string) : M (gmap string string * list string) :=
  claims_table ←
    match locals !! "claims_table" with
    | Some t => mret t
    | None => table_name claims_feature_group
    end;
  customers_table ←
    match locals !! "customers_table" with
    | Some t => mret t
    | None => table_name customers_feature_group
    end;
  let claims_feature_group_s3_prefix :=
    offline_store_prefix prefix account_id region claims_table in
  let customers_feature_group_s3_prefix :=
    offline_store_prefix prefix account_id region customers_table in
  print claims_feature_group_s3_prefix;;
  offline_store_contents ←
    wait_for_offline_store fuel s3_client bucket customers_feature_group_s3_prefix;
  mret (<["customers_feature_group_s3_prefix" := customers_feature_group_s3_prefix]>
          (<["claims_feature_group_s3_prefix" := claims_feature_group_s3_prefix]>
             (<["customers_table" := customers_table]>
                (<["claims_table" := claims_table]>
                   (delete "objects_in_bucket"
                      (delete "offline_store_contents" locals))))),
        offline_store_contents).

(** The [max_workers] of both ingest calls. *)
Definition ingest_max_workers : nat := 3.

(** [fg.ingest(data_frame=..., max_workers=3, wait=True)]: it raises or
    returns once the workers are done. *)
Definition ingest (fg : FeatureGroup) (outcome : exn + unit) : M unit :=
  call (EvIngest (name fg) ingest_max_workers true) outcome.

Definition already_ingested : string :=
  "You may have already ingested the data into your Feature Groups. If you'd like to do this again, you can run the ingest methods outside of the 'if/else' statement.".

(** [if "claims_table" in locals(): print(...)  else: <ingest both>] *)
Definition ingest_cell (claims_feature_group customers_feature_group : FeatureGroup)
    (claims_outcome customers_outcome : exn + unit)
    (locals : gmap string string) : M unit :=
  match locals !! "claims_table" with
  | Some _ => print already_ingested
  | None =>
      ingest claims_feature_group claims_outcome;;
      ingest customers_feature_group customers_outcome
  end.

(** [wait_for_feature_group_creation_complete] on the claims group, then
    on the customers group. *)
Definition wait_for_both (fuel : nat)
    (claims_feature_group customers_feature_group : FeatureGroup) : M unit :=
  wait_for_feature_group_creation_complete fuel claims_feature_group;;
  wait_for_feature_group_creation_complete fuel customers_feature_group.

(** ** What a computation may log *)

(** From any world, [m] only appends events satisfying [P]. *)
Definition emits_only {A} (P : event → Prop) (m : M A) : Prop :=
  ∀ w, ∃ new, trace (m w).2 = trace w ++ new ∧ Forall P new.

(** The feature groups a trace describes, in order. *)
Definition describes (tr : list event) : list string :=
  omap (λ ev, match ev with EvDescribe n => Some n | _ => None end) tr.


(** The Data Wrangler load fails: reading the claims output raises, or
    it succeeds and reading the customers output raises. *)
Definition wrangler_load_fails (env : Env) : bool :=
  match wr_read_claims env with
  | inl _ => true
  | inr _ =>
      match wr_read_customers env with
      | inl _ => true
      | inr _ => false
      end
  end.

(** The customers group on a script like [scripted_group]'s. *)
Definition scripted_customers (n : nat) (final : string) : FeatureGroup :=
  {| name := "fraud-detect-demo-customers";
     describe_answers := describe_answers (scripted_group n final);
     create_error := None |}.

(** * The DJLServing entry point, [model.py] *)

Module Djl.

(** A text-generation pipeline, by what it answers to a prompt; the
    call may raise.  The object is truthy, as every object without
    [__bool__] or [__len__] is. *)
Record Generator := { generate : string → exn + string }.

(** What the calls of one interpreter leave behind. *)
Inductive call :=
  | GetModel
  | Predict (data : string).

#[global] Instance call_eq_dec : EqDecision call.
Proof. solve_decision. Defined.

(** The module's state: the global [predictor] and the calls made so
    far. *)
Record process := {
  predictor : option Generator;
  calls : list call
}.

(** [predictor = None] *)
Definition start : process := {| predictor := None; calls := [] |}.

Definition is_load (c : call) : bool :=
  match c with GetModel => true | Predict _ => false end.

(** The number of times [get_model] has been called. *)
Definition loads (p : process) : nat :=
  length (filter (λ c, is_load c = true) (calls p)).

(** The prompts given to the predictor, in order. *)
Definition prompts (p : process) : list string :=
  omap (λ c, match c with Predict data => Some data | GetModel => None end)
    (calls p).

(** The outcome of each call of [get_model], which downloads and shards
    the model: a pipeline, or the exception of the attempt. *)
Definition Loader := nat → exn + Generator.

Definition get_model (loader : Loader) (p : process)
    : (exn + Generator) * process :=
  (loader (loads p),
   {| predictor := predictor p; calls := calls p ++ [GetModel] |}).

(** A request: [None] when [inputs.is_empty()], the text of
    [inputs.get_as_string()] otherwise. *)
Definition Input := option string.

(** [Output().add(result)] holds the one result. *)
Definition Output := list string.

(** [handle(inputs)] *)
Definition handle (loader : Loader) (inputs : Input) (p : process)
    : (exn + option Output) * process :=
  let '(loaded, p1) :=
    match predictor p with
    | Some g => (inr g, p)
    | None =>
        match get_model loader p with
        | (inr g, p') =>
            (inr g, {| predictor := Some g; calls := calls p' |})
        | (inl e, p') => (inl e, p')
        end
    end in
  match loaded with
  | inl e => (inl e, p1)
  | inr g =>
      match inputs with
      | None => (inr None, p1)
      | Some data =>
          let p2 := {| predictor := predictor p1;
                       calls := calls p1 ++ [Predict data] |} in
          match generate g data with
          | inl e => (inl e, p2)
          | inr result => (inr (Some [result]), p2)
          end
      end
  end.

(** The requests one interpreter handles in turn, with the outcome of
    each. *)
Fixpoint serve (loader : Loader) (requests : list Input) (p : process)
    : list (exn + option Output) * process :=
  match requests with
  | [] => ([], p)
  | inputs :: rest =>
      let '(r, p1) := handle loader inputs p in
      let '(rs, p2) := serve loader rest p1 in
      (r :: rs, p2)
  end.

(** What a loaded pipeline [g] answers to a request. *)
Definition answer (g : Generator) (inputs : Input) : exn + option Output :=
  match inputs with
  | None => inr None
  | Some data =>
      match generate g data with
      | inl e => inl e
      | inr result => inr (Some [result])
      end
  end.

(** A pipeline that completes its prompt with a fixed text. *)
Definition completing (text : string) : Generator :=
  {| generate := λ data, inr (data +:+ text) |}.

Definition out_of_memory : exn :=
  {| exn_cls := RuntimeError;
     exn_msg := "CUDA out of memory";
     exn_response := None |}.

(** A loader whose first [n] attempts raise. *)
Definition loader_failing (n : nat) (g : Generator) : Loader :=
  λ i, if i <? n then inl out_of_memory else inr g.

End Djl.

(** * Properties *)

(** ** Monad plumbing *)

Lemma bind_unfold {A B} (m : M A) (k : A → M B) (w : world) :
  (m ≫= k) w = match m w with
               | (Return a, w') => k a w'
               | (Raise e, w') => (Raise e, w')
               | (Running, w') => (Running, w')
               end.
Proof. reflexivity. Qed.

Lemma bind_emit {B} (ev : event) (k : unit → M B) (w : world) :
  (emit ev ≫= k) w = k tt {| polls := polls w; trace := trace w ++ [ev] |}.
Proof. reflexivity. Qed.

Lemma bind_print {B} (line : string) (k : unit → M B) (w : world) :
  (print line ≫= k) w =
    k tt {| polls := polls w; trace := trace w ++ [EvPrint line] |}.
Proof. reflexivity. Qed.

Lemma bind_sleep {B} (d : nat) (k : unit → M B) (w : world) :
  (sleep d ≫= k) w =
    k tt {| polls := polls w; trace := trace w ++ [EvSleep d] |}.
Proof. reflexivity. Qed.

Lemma bind_describe_status {B} (fg : FeatureGroup)
    (k : option string → M B) (w : world) :
  (describe_status fg ≫= k) w =
    k (status_at fg w 0)
      {| polls := S (polls w); trace := trace w ++ [EvDescribe (name fg)] |}.
Proof.
  unfold describe_status, status_at. rewrite !bind_unfold. simpl.
  by rewrite Nat.add_0_r.
Qed.

Lemma status_at_shift (fg : FeatureGroup) (w : world) (tr : list event) (j : nat) :
  status_at fg {| polls := S (polls w); trace := tr |} j = status_at fg w (S j).
Proof. unfold status_at. cbn [polls]. f_equal. f_equal. lia. Qed.

(** ** The creation poller *)

Lemma status_tested_shift (fg : FeatureGroup) (w : world) (tr : list event)
    (status : option string) (j : nat) :
  status_tested fg {| polls := S (polls w); trace := tr |} (status_at fg w 0) j
  = status_tested fg w status (S j).
Proof. destruct j; [reflexivity|]. apply status_at_shift. Qed.

(** While the script keeps answering ["Creating"], each turn of the loop
    appends one [creation_round]; the loop leaves at the first other
    status. *)
Lemma while_creating_exit (fg : FeatureGroup) (k : nat) :
  ∀ (fuel : nat) (w : world) (status : option string),
    k ≤ fuel →
    (∀ i, i < k → status_tested fg w status i = Some "Creating") →
    status_tested fg w status k ≠ Some "Creating" →
    while_creating fuel fg status w =
      (Return (status_tested fg w status k),
       {| polls := polls w + k;
          trace := trace w ++ concat (replicate k (creation_round fg)) |}).
Proof.
  induction k as [|k IH]; intros fuel w status Hfuel Hbusy Hexit.
  - cbn [status_tested] in *.
    destruct fuel; cbn [while_creating]; rewrite decide_False by done;
      destruct w; cbn; by rewrite Nat.add_0_r, app_nil_r.
  - destruct fuel as [|fuel]; [lia|].
    pose proof (Hbusy 0 ltac:(lia)) as H0. cbn [status_tested] in H0.
    cbn [while_creating]. rewrite decide_True by done.
    rewrite bind_print, bind_sleep, bind_describe_status. cbn [polls trace].
    rewrite (IH fuel _ (status_at fg w 0)).
    + rewrite (status_tested_shift _ _ _ status). cbn [polls trace].
      f_equal. f_equal; [lia|].
      cbn [replicate concat creation_round app]. rewrite <- !app_assoc.
      reflexivity.
    + lia.
    + intros i Hi. rewrite (status_tested_shift _ _ _ status). apply Hbusy. lia.
    + by rewrite (status_tested_shift _ _ _ status).
Qed.


(** The whole poller, when the first status other than ["Creating"] is
    the answer to poll number [k] (counting from 0). *)
Lemma poller_settles (fg : FeatureGroup) (w : world) (k fuel : nat) :
  k ≤ fuel →
  (∀ i, i < k → status_at fg w i = Some "Creating") →
  status_at fg w k ≠ Some "Creating" →
  wait_for_feature_group_creation_complete fuel fg w =
    if decide (status_at fg w k = Some "Created") then
      (Return tt,
       {| polls := polls w + S k;
          trace := trace w ++ EvDescribe (name fg)
                     :: concat (replicate k (creation_round fg))
                     ++ [EvPrint ("FeatureGroup " +:+ name fg
                                  +:+ " successfully created.")] |})
    else
      (Raise (failed_to_create fg),
       {| polls := polls w + S k;
          trace := trace w ++ EvDescribe (name fg)
                     :: concat (replicate k (creation_round fg)) |}).
Proof.
  intros Hfuel Hbusy Hexit.
  unfold wait_for_feature_group_creation_complete.
  rewrite bind_describe_status, bind_unfold.
  assert (Hseq : ∀ i,
            status_tested fg
              {| polls := S (polls w);
                 trace := trace w ++ [EvDescribe (name fg)] |}
              (status_at fg w 0) i
            = status_at fg w i).
  { intros [|j]; [reflexivity|]. apply status_at_shift. }
  rewrite (while_creating_exit fg k); [|done|..].
  - cbn [polls trace]. rewrite Hseq.
    destruct (decide (status_at fg w k = Some "Created")) as [Hc|Hc].
    + rewrite decide_False by (intros Hn; by apply Hn).
      unfold print, emit. cbn [polls trace]. f_equal. f_equal; [lia|].
      rewrite <- !app_assoc. reflexivity.
    + rewrite decide_True by done. unfold raise. f_equal. f_equal; [lia|].
      rewrite <- !app_assoc. reflexivity.
  - intros i Hi. rewrite Hseq. by apply Hbusy.
  - by rewrite Hseq.
Qed.


(** C1. On the status script Creating, Creating, Created the poller
    returns normally after exactly three polls; on the script Creating
    followed by a status that is neither Creating nor Created it raises
    a [RuntimeError] whose message ends with the feature group's name. *)
Theorem poller_stubbed_sequences (fg : FeatureGroup) (w : world) (fuel : nat)
    (Hfuel : 2 ≤ fuel) :
  (status_at fg w 0 = Some "Creating" →
   status_at fg w 1 = Some "Creating" →
   status_at fg w 2 = Some "Created" →
   ∃ new : list event,
     wait_for_feature_group_creation_complete fuel fg w =
       (Return tt, {| polls := polls w + 3; trace := trace w ++ new |})
     ∧ remote_polls new = 3)
  ∧
  (∀ failed : option string,
     failed ≠ Some "Creating" → failed ≠ Some "Created" →
     status_at fg w 0 = Some "Creating" →
     status_at fg w 1 = failed →
     ∃ (e : exn) (new : list event),
       wait_for_feature_group_creation_complete fuel fg w =
         (Raise e, {| polls := polls w + 2; trace := trace w ++ new |})
       ∧ exn_cls e = RuntimeError
       ∧ exn_msg e = "Failed to create feature group " +:+ name fg
       ∧ remote_polls new = 2).
Proof.
  split.
  - intros H0 H1 H2.
    rewrite (poller_settles fg w 2 fuel); [| lia | | ].
    + rewrite decide_True by done. eexists. split; [reflexivity|]. reflexivity.
    + intros [|[|i]] Hi; [done | done | lia].
    + rewrite H2. done.
  - intros failed Hn1 Hn2 H0 H1.
    rewrite (poller_settles fg w 1 fuel); [| lia | | ].
    + rewrite decide_False by (by rewrite H1).
      eexists _, _. split; [reflexivity|]. done.
    + intros [|i] Hi; [done | lia].
    + by rewrite H1.
Qed.

Lemma poller_stubbed_sequences_witness :
  (∃ new : list event,
     wait_for_feature_group_creation_complete 2 (scripted_group 2 "Created") world0 =
       (Return tt, {| polls := 3; trace := new |})
     ∧ remote_polls new = 3)
  ∧
  (∃ (e : exn) (new : list event),
     wait_for_feature_group_creation_complete 2 (scripted_group 1 "CreateFailed") world0 =
       (Raise e, {| polls := 2; trace := new |})
     ∧ exn_cls e = RuntimeError
     ∧ exn_msg e = "Failed to create feature group fraud-detect-demo-claims"
     ∧ remote_polls new = 2).
Proof.
  split.
  - apply (proj1 (poller_stubbed_sequences (scripted_group 2 "Created")
                    world0 2 (le_n 2))); reflexivity.
  - apply (proj2 (poller_stubbed_sequences (scripted_group 1 "CreateFailed")
                    world0 2 (le_n 2)) (Some "CreateFailed"));
      [discriminate | discriminate | reflexivity | reflexivity].
Defined.

(** ** The offline-store wait *)

Lemma bind_list_objects {B} (s3 : S3Client) (bucket prefix : string)
    (k : gmap string (list string) → M B) (w : world) :
  (list_objects s3 bucket prefix ≫= k) w =
    k (listing_at s3 w 0)
      {| polls := S (polls w);
         trace := trace w ++ [EvListObjects bucket prefix] |}.
Proof.
  unfold list_objects, listing_at. rewrite bind_unfold. simpl.
  by rewrite Nat.add_0_r.
Qed.

Lemma listing_at_shift (s3 : S3Client) (w : world) (tr : list event) (j : nat) :
  listing_at s3 {| polls := S (polls w); trace := tr |} j = listing_at s3 w (S j).
Proof. unfold listing_at. cbn [polls]. f_equal. lia. Qed.

Lemma data_available_spec (d : gmap string (list string)) :
  data_available d = true ↔
  ∃ contents, d !! "Contents" = Some contents ∧ 1 < length contents.
Proof.
  unfold data_available. destruct (d !! "Contents") as [contents|].
  - rewrite bool_decide_eq_true. split.
    + intros H. by exists contents.
    + intros (c & Hc & Hlen). by simplify_eq.
  - split; [done|]. by intros (c & Hc & _).
Qed.

(** One unsuccessful turn of the loop. *)
Lemma while_offline_store_empty_turn (s3 : S3Client) (bucket prefix : string)
    (fuel : nat) (w : world) :
  data_available (listing_at s3 w 0) = false →
  while_offline_store_empty (S fuel) s3 bucket prefix None w =
    while_offline_store_empty fuel s3 bucket prefix None
      {| polls := S (polls w);
         trace := trace w ++ offline_round bucket prefix |}.
Proof.
  intros Hno. cbn [while_offline_store_empty].
  rewrite bind_list_objects, bind_unfold.
  unfold data_available in Hno.
  destruct (listing_at s3 w 0 !! "Contents") as [contents|].
  - rewrite Hno. rewrite bind_print, bind_sleep. cbn [mret M_ret ret polls trace].
    rewrite <- !app_assoc. reflexivity.
  - rewrite bind_print, bind_sleep. cbn [mret M_ret ret polls trace].
    rewrite <- !app_assoc. reflexivity.
Qed.

(** One successful turn of the loop. *)
Lemma while_offline_store_empty_done (s3 : S3Client) (bucket prefix : string)
    (fuel : nat) (w : world) :
  data_available (listing_at s3 w 0) = true →
  while_offline_store_empty (S fuel) s3 bucket prefix None w =
    (Return (default [] (listing_at s3 w 0 !! "Contents")),
     {| polls := S (polls w);
        trace := trace w ++ [EvListObjects bucket prefix] |}).
Proof.
  intros Hyes. cbn [while_offline_store_empty].
  rewrite bind_list_objects, bind_unfold.
  unfold data_available in Hyes.
  destruct (listing_at s3 w 0 !! "Contents") as [contents|]; [|done].
  rewrite Hyes. cbn [mret M_ret ret]. by destruct fuel.
Qed.

Lemma while_offline_store_empty_exit (s3 : S3Client) (bucket prefix : string)
    (k : nat) :
  ∀ (fuel : nat) (w : world),
    k < fuel →
    (∀ i, i < k → data_available (listing_at s3 w i) = false) →
    data_available (listing_at s3 w k) = true →
    while_offline_store_empty fuel s3 bucket prefix None w =
      (Return (default [] (listing_at s3 w k !! "Contents")),
       {| polls := polls w + S k;
          trace := trace w ++ concat (replicate k (offline_round bucket prefix))
                     ++ [EvListObjects bucket prefix] |}).
Proof.
  induction k as [|k IH]; intros fuel w Hfuel Hno Hyes.
  - destruct fuel as [|fuel]; [lia|].
    rewrite while_offline_store_empty_done by done.
    f_equal. f_equal. lia.
  - destruct fuel as [|fuel]; [lia|].
    rewrite while_offline_store_empty_turn by (apply Hno; lia).
    rewrite IH.
    + rewrite listing_at_shift. cbn [polls trace]. f_equal. f_equal; [lia|].
      cbn [replicate concat]. rewrite <- !app_assoc. reflexivity.
    + lia.
    + intros i Hi. rewrite listing_at_shift. apply Hno. lia.
    + by rewrite listing_at_shift.
Qed.

Lemma while_offline_store_empty_busy (s3 : S3Client) (bucket prefix : string)
    (fuel : nat) :
  ∀ (w : world),
    (∀ i, i < fuel → data_available (listing_at s3 w i) = false) →
    while_offline_store_empty fuel s3 bucket prefix None w =
      (Running,
       {| polls := polls w + fuel;
          trace := trace w
                     ++ concat (replicate fuel (offline_round bucket prefix)) |}).
Proof.
  induction fuel as [|fuel IH]; intros w Hno.
  - destruct w; simpl. unfold still_running. simpl.
    by rewrite Nat.add_0_r, app_nil_r.
  - rewrite while_offline_store_empty_turn by (apply Hno; lia).
    rewrite IH.
    + cbn [polls trace]. f_equal. f_equal; [lia|].
      cbn [replicate concat]. rewrite <- !app_assoc. reflexivity.
    + intros i Hi. rewrite listing_at_shift. apply Hno. lia.
Qed.

(** Within any budget the loop has either met a first listing with data
    or seen none at all. *)
Lemma first_data_available (s3 : S3Client) (w : world) (fuel : nat) :
  (∀ i, i < fuel → data_available (listing_at s3 w i) = false)
  ∨ (∃ k, k < fuel
          ∧ (∀ i, i < k → data_available (listing_at s3 w i) = false)
          ∧ data_available (listing_at s3 w k) = true).
Proof.
  induction fuel as [|fuel [Hnone|(k & Hk & Hno & Hyes)]].
  - left. intros i Hi. lia.
  - destruct (data_available (listing_at s3 w fuel)) eqn:Hlast.
    + right. exists fuel. split; [lia|]. done.
    + left. intros i Hi. destruct (decide (i = fuel)) as [->|]; [done|].
      apply Hnone. lia.
  - right. exists k. split; [lia|]. done.
Qed.

(** C9. The offline-store loop leaves at the first listing that holds a
    ["Contents"] list of more than one object, and only at such a
    listing; when every listing lacks ["Contents"] or holds at most one
    object, the wait is still running after any number of turns and has
    raised nothing. *)
Theorem offline_store_wait_exit_iff (s3 : S3Client) (bucket prefix : string)
    (w : world) :
  (∀ k fuel,
     k < fuel →
     (∀ i, i < k → data_available (listing_at s3 w i) = false) →
     data_available (listing_at s3 w k) = true →
     ∃ contents,
       listing_at s3 w k !! "Contents" = Some contents
       ∧ 1 < length contents
       ∧ while_offline_store_empty fuel s3 bucket prefix None w =
           (Return contents,
            {| polls := polls w + S k;
               trace := trace w
                          ++ concat (replicate k (offline_round bucket prefix))
                          ++ [EvListObjects bucket prefix] |}))
  ∧
  (∀ fuel contents w',
     while_offline_store_empty fuel s3 bucket prefix None w = (Return contents, w') →
     ∃ k, k < fuel
          ∧ listing_at s3 w k !! "Contents" = Some contents
          ∧ 1 < length contents)
  ∧
  ((∀ k, listing_at s3 w k !! "Contents" = None
         ∨ ∃ contents, listing_at s3 w k !! "Contents" = Some contents
                       ∧ length contents ≤ 1) →
   ∀ fuel,
     wait_for_offline_store fuel s3 bucket prefix w =
       (Running,
        {| polls := polls w + fuel;
           trace := trace w
                      ++ concat (replicate fuel (offline_round bucket prefix)) |})).
Proof.
  split; [|split].
  - intros k fuel Hfuel Hno Hyes.
    destruct (proj1 (data_available_spec _) Hyes) as (contents & Hc & Hlen).
    exists contents. split; [done|]. split; [done|].
    rewrite (while_offline_store_empty_exit s3 bucket prefix k) by done.
    by rewrite Hc.
  - intros fuel contents w' Hrun.
    destruct (first_data_available s3 w fuel) as [Hnone|(k & Hk & Hno & Hyes)].
    + rewrite while_offline_store_empty_busy in Hrun by done. discriminate.
    + rewrite (while_offline_store_empty_exit s3 bucket prefix k) in Hrun by done.
      destruct (proj1 (data_available_spec _) Hyes) as (c & Hc & Hlen).
      rewrite Hc in Hrun. simpl in Hrun. exists k. by simplify_eq.
  - intros Hnever fuel. unfold wait_for_offline_store. rewrite bind_unfold.
    rewrite while_offline_store_empty_busy; [done|].
    intros i _. unfold data_available.
    destruct (Hnever i) as [->|(c & -> & Hlen)]; [done|].
    apply bool_decide_eq_false. lia.
Qed.

Lemma offline_store_wait_exit_iff_witness :
  (∃ contents,
     while_offline_store_empty 3
       (scripted_s3 2 {["Contents" := ["part-0"]]}
                      {["Contents" := ["part-0"; "part-1"]]})
       "bucket" "prefix" None world0
     = (Return contents,
        {| polls := 3;
           trace := offline_round "bucket" "prefix"
                    ++ offline_round "bucket" "prefix"
                    ++ [EvListObjects "bucket" "prefix"] |}))
  ∧
  (∀ fuel,
     wait_for_offline_store fuel
       (scripted_s3 0 ∅ {["Contents" := ["part-0"]]}) "bucket" "prefix" world0
     = (Running,
        {| polls := fuel;
           trace := concat (replicate fuel (offline_round "bucket" "prefix")) |})).
Proof.
  split.
  - destruct (proj1 (offline_store_wait_exit_iff
                       (scripted_s3 2 {["Contents" := ["part-0"]]}
                          {["Contents" := ["part-0"; "part-1"]]})
                       "bucket" "prefix" world0) 2 3) as (c & _ & _ & Hrun).
    + lia.
    + intros [|[|i]] Hi; [reflexivity | reflexivity | lia].
    + reflexivity.
    + exists c. exact Hrun.
  - apply (proj2 (proj2 (offline_store_wait_exit_iff
                           (scripted_s3 0 ∅ {["Contents" := ["part-0"]]})
                           "bucket" "prefix" world0))).
    intros k. right. exists ["part-0"]. split; [reflexivity | simpl; lia].
Defined.

(** ** Cadence of the two polling loops *)

Lemma sleeps_app (tr1 tr2 : list event) : sleeps (tr1 ++ tr2) = sleeps tr1 ++ sleeps tr2.
Proof. unfold sleeps. apply omap_app. Qed.

Lemma sleeps_describe (fg_name : string) (tr : list event) :
  sleeps (EvDescribe fg_name :: tr) = sleeps tr.
Proof. reflexivity. Qed.

Lemma sleeps_creation_rounds (fg : FeatureGroup) (k : nat) :
  sleeps (concat (replicate k (creation_round fg))) = replicate k creation_poll_interval.
Proof.
  induction k as [|k IH]; [done|].
  cbn [replicate concat]. rewrite sleeps_app, IH. reflexivity.
Qed.






(** What the wait returns is a listing of more than one object. *)
Lemma wait_for_offline_store_returns (s3 : S3Client)
    (bucket prefix : string) (w w' : world) (fuel : nat)
    (contents : list string) :
  wait_for_offline_store fuel s3 bucket prefix w = (Return contents, w') →
  1 < length contents.
Proof.
  unfold wait_for_offline_store. rewrite bind_unfold.
  destruct (first_data_available s3 w fuel) as [Hnone|(k & Hk & Hno & Hyes)].
  - by rewrite while_offline_store_empty_busy.
  - rewrite (while_offline_store_empty_exit s3 bucket prefix k) by done.
    destruct (proj1 (data_available_spec _) Hyes) as (c & Hc & Hlen).
    rewrite Hc, bind_print. cbn [mret M_ret ret default]. by intros [= <- _].
Qed.




(** ** Exception handling *)

Lemma try_except_unfold {A} (body : M A) (catches : exn → bool)
    (handler : exn → M A) (w : world) :
  try_except body catches handler w =
    match body w with
    | (Raise e, w') => if catches e then handler e w' else (Raise e, w')
    | r => r
    end.
Proof. reflexivity. Qed.

Lemma call_inl {A} (ev : event) (e : exn) (w : world) :
  call (A := A) ev (inl e) w =
    (Raise e, {| polls := polls w; trace := trace w ++ [ev] |}).
Proof. reflexivity. Qed.

Lemma bind_call_inl {A B} (ev : event) (e : exn) (k : A → M B) (w : world) :
  (call ev (inl e) ≫= k) w =
    (Raise e, {| polls := polls w; trace := trace w ++ [ev] |}).
Proof. reflexivity. Qed.

Lemma bind_call_inr {A B} (ev : event) (a : A) (k : A → M B) (w : world) :
  (call ev (inr a) ≫= k) w =
    k a {| polls := polls w; trace := trace w ++ [ev] |}.
Proof. reflexivity. Qed.

(** The creation cell, once [create()] has raised [e]. *)
Lemma create_feature_group_raised (preamble : M unit) (fg : FeatureGroup)
    (label : string) (e : exn) (w w1 : world) :
  preamble w = (Return tt, w1) →
  create_error fg = Some e →
  create_feature_group preamble fg label w =
    let w2 := {| polls := polls w1; trace := trace w1 ++ [EvCreate (name fg)] |} in
    if is_Exception e then
      (code ← error_code e;
       if decide (code = Some "ResourceInUse") then
         print ("Using existing feature group: " +:+ name fg)
       else raise e) w2
    else (Raise e, w2).
Proof.
  intros Hpre Herr. unfold create_feature_group.
  rewrite try_except_unfold, bind_unfold, Hpre, bind_unfold.
  unfold create, call. rewrite Herr. reflexivity.
Qed.




(** ** The conditional registration branch *)

Import Pipeline.

Lemma selected_branch_after_eval (mse std : Q) :
  selected_branch (store_after_eval mse std) step_cond =
    Some (if Qle_bool mse 6 then [step_register_best] else []).
Proof.
  change (selected_branch (store_after_eval mse std) step_cond)
    with (Some (if Qle_bool mse 6 && true then [step_register_best] else [])).
  by rewrite andb_true_r.
Qed.

(** C2 (as amended). Once the evaluation step has written its report,
    the condition step selects the registration step exactly when
    [regression_metrics.mse.value] is at most 6.0 (the threshold
    included), and the empty else-branch exactly when it is above. *)
Theorem registration_iff_mse_at_most_threshold (mse std : Q) :
  (selected_branch (store_after_eval mse std) step_cond
     = Some [step_register_best] ↔ (mse <= 6)%Q)
  ∧ (selected_branch (store_after_eval mse std) step_cond
     = Some [] ↔ (6 < mse)%Q)
  ∧ selected_branch (store_after_eval 6 std) step_cond
     = Some [step_register_best].
Proof.
  rewrite selected_branch_after_eval.
  split; [|split; [|reflexivity]].
  - destruct (Qle_bool mse 6) eqn:Hle.
    + apply Qle_bool_iff in Hle. done.
    + split; [done|]. intros Hq. apply Qle_bool_iff in Hq. congruence.
  - destruct (Qle_bool mse 6) eqn:Hle.
    + apply Qle_bool_iff in Hle. split; [done|].
      intros Hlt. exfalso. apply (Qlt_not_le _ _ Hlt Hle).
    + split; [|done]. intros _. apply Qnot_le_lt. intros Hq.
      apply Qle_bool_iff in Hq. congruence.
Qed.

(** C2 (as stated) fails at the threshold: a report whose mse equals 6.0
    selects the registration step, although 6.0 is not below 6.0. *)
Lemma registration_selected_at_threshold :
  selected_branch (store_after_eval 6 0) step_cond = Some [step_register_best]
  ∧ ¬ (6 < 6)%Q
  ∧ ¬ (∀ mse std,
         selected_branch (store_after_eval mse std) step_cond
           = Some [step_register_best] ↔ (mse < 6)%Q).
Proof.
  split; [reflexivity|]. split; [apply Qlt_irrefl|].
  intros Hclaim. apply (Qlt_irrefl 6). apply (Hclaim 6%Q 0%Q). reflexivity.
Qed.

(** ** The step graph *)

(** What [declared_in_order] checks: each reference of the step at
    position [i] of [later] is provided by a step standing before it. *)
Lemma declared_in_order_sound (later : list Step) :
  ∀ (earlier : list Step),
    declared_in_order earlier later = true →
    ∀ i s r,
      later !! i = Some s → r ∈ references s →
      ∃ j t, (earlier ++ later) !! j = Some t
             ∧ j < length earlier + i
             ∧ provides t r = true.
Proof.
  induction later as [|s0 later IH]; intros earlier Hok i s r Hi Hr; [done|].
  cbn [declared_in_order] in Hok. apply andb_true_iff in Hok as [Hhere Hrest].
  destruct i as [|i].
  - simpl in Hi. simplify_eq.
    rewrite forallb_forall in Hhere.
    specialize (Hhere r (proj1 (list_elem_of_In _ _) Hr)).
    apply existsb_exists in Hhere as (t & Ht & Hprov).
    apply list_elem_of_In, list_elem_of_lookup in Ht as [j Hj].
    exists j, t. split; [by apply lookup_app_l_Some|]. split; [|done].
    apply lookup_lt_Some in Hj. lia.
  - simpl in Hi.
    destruct (IH (earlier ++ [s0]) Hrest i s r Hi Hr) as (j & t & Hj & Hlt & Hprov).
    exists j, t. rewrite <- app_assoc in Hj. split; [done|]. split; [|done].
    rewrite length_app in Hlt. simpl in Hlt. lia.
Qed.

Lemma provides_name (t : Step) (r : reference) :
  provides t r = true → step_name t = referenced_step r.
Proof.
  unfold provides. intros H. apply andb_true_iff in H as [H _].
  by apply bool_decide_eq_true in H.
Qed.

(** With distinct step names, a list declared in order only has
    dependencies that point backwards. *)
Lemma declared_in_order_backwards (steps : list Step) :
  NoDup (step_name <$> steps) →
  declared_in_order [] steps = true →
  ∀ i j, depends_on steps i j → j < i.
Proof.
  intros Hnodup Hok i j (s & t & r & Hi & Hj & Hr & Hname).
  destruct (declared_in_order_sound steps [] Hok i s r Hi Hr)
    as (j' & t' & Hj' & Hlt & Hprov).
  simpl in Hj', Hlt. apply provides_name in Hprov.
  assert (j = j') as ->; [|done].
  eapply NoDup_lookup; [exact Hnodup | |].
  - rewrite list_lookup_fmap, Hj. reflexivity.
  - rewrite list_lookup_fmap, Hj'. simpl. congruence.
Qed.

(** Backward-pointing dependencies admit no cycle. *)
Lemma backwards_acyclic (R : nat → nat → Prop) :
  (∀ i j, R i j → j < i) → ∀ i, ¬ tc R i i.
Proof.
  intros Hback i Hcycle.
  assert (∀ a b, tc R a b → b < a) as Htc.
  { intros a b Hab. induction Hab as [a b Hab|a b c Hab _ IH].
    - by apply Hback.
    - apply Hback in Hab. lia. }
  apply Htc in Hcycle. lia.
Qed.

(** C6. The pipeline's step list is preprocess, tuning, create best
    model, create second-best model, evaluate, condition; the tuning
    step reads the preprocess step's train and validation outputs, the
    model and evaluate steps the tuning step's top models, the condition
    step the evaluate step's property file; every reference points at an
    output declared by an earlier step, so the dependency graph has no
    cycle. *)
Theorem pipeline_is_acyclic_sequence :
  step_name <$> pipeline_steps =
    ["PreprocessAbaloneDataForHPO"; "HPTuning"; "CreateBestModel";
     "CreateSecondBestModel"; "EvaluateTopModel"; "CheckMSEAbaloneEvaluation"]
  ∧ references step_process = []
  ∧ references step_tuning =
      [ProcessingOutputUri "PreprocessAbaloneDataForHPO" "train";
       ProcessingOutputUri "PreprocessAbaloneDataForHPO" "validation"]
  ∧ references step_create_first = [TopModelS3Uri "HPTuning" 0]
  ∧ references step_create_second = [TopModelS3Uri "HPTuning" 1]
  ∧ references step_eval =
      [TopModelS3Uri "HPTuning" 0;
       ProcessingOutputUri "PreprocessAbaloneDataForHPO" "test"]
  ∧ references step_cond =
      [JsonGet "EvaluateTopModel" evaluation_report "regression_metrics.mse.value";
       TopModelS3Uri "HPTuning" 0]
  ∧ declared_in_order [] pipeline_steps = true
  ∧ (∀ i j, depends_on pipeline_steps i j → j < i)
  ∧ (∀ i, ¬ tc (depends_on pipeline_steps) i i).
Proof.
  assert (Hnames : NoDup (step_name <$> pipeline_steps)).
  { apply (bool_decide_unpack (NoDup (step_name <$> pipeline_steps))).
    vm_compute. exact I. }
  assert (Hok : declared_in_order [] pipeline_steps = true) by (vm_compute; reflexivity).
  repeat (split; [reflexivity|]).
  split; [by apply declared_in_order_backwards|].
  by apply backwards_acyclic, declared_in_order_backwards.
Qed.

(** ** Strings *)

Lemma string_app_cons (c : ascii) (s t : string) :
  String c s +:+ t = String c (s +:+ t).
Proof. reflexivity. Qed.

Lemma string_app_nil_r (s : string) : s +:+ EmptyString = s.
Proof. induction s as [|c s IH]; [done|]. by rewrite string_app_cons, IH. Qed.

Lemma string_app_assoc (s t u : string) : (s +:+ t) +:+ u = s +:+ t +:+ u.
Proof.
  induction s as [|c s IH]; [done|]. by rewrite !string_app_cons, IH.
Qed.

(** ** Lexing the join query *)

Import Sql.

Lemma lex_quote_body (q : string) :
  ∀ (acc s : string),
    quote_free q = true →
    lex (Quote acc) (q +:+ String quote_char s)
    = cons (TQuoted (acc +:+ q)) <$> lex Out s.
Proof.
  induction q as [|c q IH]; intros acc s Hfree.
  - rewrite string_app_nil_r. reflexivity.
  - cbn in Hfree. apply andb_true_iff in Hfree as [Hc Hq].
    apply negb_true_iff, bool_decide_eq_false in Hc.
    rewrite string_app_cons. cbn [lex]. rewrite decide_False by done.
    rewrite IH by done. unfold snoc. by rewrite string_app_assoc.
Qed.

Lemma lex_quoted (c s : string) :
  quote_free c = true →
  lex Out (quoted c +:+ s) = cons (TQuoted c) <$> lex Out s.
Proof.
  intros Hfree.
  assert (quoted c +:+ s = String quote_char (c +:+ String quote_char s)) as ->.
  { unfold quoted, dq. by rewrite !string_app_assoc. }
  exact (lex_quote_body c EmptyString s Hfree).
Qed.

(** The fixed pieces of the query text. *)
Lemma lex_select (s : string) :
  lex Out (nl +:+ "SELECT DISTINCT " +:+ s)
  = cons (TWord "SELECT") <$> (cons (TWord "DISTINCT") <$> lex Out s).
Proof. reflexivity. Qed.

Lemma lex_alias (s : string) :
  lex Out (".policy_id as policy_id" +:+ String ","%char s)
  = cons TDot <$> (cons (TWord "policy_id") <$> (cons (TWord "as") <$>
      (cons (TWord "policy_id") <$> lex Out (String ","%char s)))).
Proof. reflexivity. Qed.

Lemma lex_separator (s : string) :
  lex Out (", " +:+ s) = cons TComma <$> lex Out s.
Proof. reflexivity. Qed.

Lemma lex_from (s : string) :
  lex Out (nl +:+ "FROM " +:+ s) = cons (TWord "FROM") <$> lex Out s.
Proof. reflexivity. Qed.

Lemma lex_left_join (s : string) :
  lex Out (" LEFT JOIN " +:+ s)
  = cons (TWord "LEFT") <$> (cons (TWord "JOIN") <$> lex Out s).
Proof. reflexivity. Qed.

Lemma lex_on (s : string) :
  lex Out (" " +:+ nl +:+ "ON " +:+ s) = cons (TWord "ON") <$> lex Out s.
Proof. reflexivity. Qed.

Lemma lex_equals (s : string) :
  lex Out (".policy_id = " +:+ s)
  = cons TDot <$> (cons (TWord "policy_id") <$> (cons TEq <$> lex Out s)).
Proof. reflexivity. Qed.

Lemma lex_end : lex Out (".policy_id" +:+ nl) = Some [TDot; TWord "policy_id"].
Proof. reflexivity. Qed.

(** The quoted feature columns, each led by its separator. *)
Lemma lex_items (fc : list string) (s : string) :
  fc ≠ [] →
  Forall (λ c, quote_free c = true) fc →
  lex Out (", " +:+ String.concat ", " (quoted <$> fc) +:+ s)
  = app (item_tokens fc) <$> lex Out s.
Proof.
  intros Hne Hfree. induction Hfree as [|c fc Hc Hfc IH]; [done|].
  rewrite lex_separator. destruct fc as [|c' fc].
  - cbn [fmap list_fmap String.concat]. rewrite lex_quoted by done.
    by destruct (lex Out s).
  - change (String.concat ", " (quoted <$> c :: c' :: fc))
      with (quoted c +:+ ", " +:+ String.concat ", " (quoted <$> c' :: fc)).
    rewrite !string_app_assoc, lex_quoted by done.
    rewrite IH by done. by destruct (lex Out s).
Qed.

(** The query text, regrouped piece by piece. *)
Lemma join_query_pieces (claims_table customers_table : string)
    (fc : list string) :
  join_query claims_table customers_table fc =
    nl +:+ "SELECT DISTINCT " +:+ quoted claims_table
    +:+ ".policy_id as policy_id"
    +:+ ", " +:+ String.concat ", " (quoted <$> fc)
    +:+ nl +:+ "FROM " +:+ quoted claims_table
    +:+ " LEFT JOIN " +:+ quoted customers_table
    +:+ " " +:+ nl +:+ "ON " +:+ quoted claims_table
    +:+ ".policy_id = " +:+ quoted customers_table +:+ ".policy_id" +:+ nl.
Proof.
  unfold join_query, query_string, feature_columns_string.
  rewrite !string_app_assoc. reflexivity.
Qed.

Lemma lex_join_query (claims_table customers_table : string)
    (fc : list string) :
  quote_free claims_table = true →
  quote_free customers_table = true →
  Forall (λ c, quote_free c = true) fc →
  fc ≠ [] →
  lex Out (join_query claims_table customers_table fc)
  = Some (query_tokens claims_table customers_table fc).
Proof.
  intros Hct Hcu Hfree Hne. rewrite join_query_pieces.
  rewrite lex_select, lex_quoted by done.
  change (", " +:+ String.concat ", " (quoted <$> fc) +:+ ?s)
    with (String ","%char (" " +:+ String.concat ", " (quoted <$> fc) +:+ s)).
  rewrite lex_alias.
  change (String ","%char (" " +:+ String.concat ", " (quoted <$> fc) +:+ ?s))
    with (", " +:+ String.concat ", " (quoted <$> fc) +:+ s).
  rewrite lex_items by done.
  rewrite lex_from, lex_quoted by done.
  rewrite lex_left_join, lex_quoted by done.
  rewrite lex_on, lex_quoted by done.
  rewrite lex_equals, lex_quoted by done.
  rewrite lex_end. reflexivity.
Qed.

(** ** Recognising the join query *)

Lemma accepts_items (fc : list string) (rest : list token) :
  Forall (λ c, nonempty c = true) fc →
  fc ≠ [] →
  ∀ st, after_item TComma = step st TComma →
    accepts st (item_tokens fc ++ rest) = accepts ItemTable rest.
Proof.
  intros Hfc. induction Hfc as [|c fc Hc Hfc IH]; intros Hne st Hst; [done|].
  change (item_tokens (c :: fc) ++ rest)
    with (TComma :: TQuoted c :: (item_tokens fc ++ rest)).
  cbn [accepts]. rewrite <- Hst. cbn [after_item step]. rewrite Hc.
  destruct fc as [|c' fc]; [reflexivity|]. by apply IH.
Qed.

Lemma accepts_query_tokens (claims_table customers_table : string)
    (fc : list string) :
  nonempty claims_table = true →
  nonempty customers_table = true →
  Forall (λ c, nonempty c = true) fc →
  fc ≠ [] →
  accepts Start (query_tokens claims_table customers_table fc) = true.
Proof.
  intros Hct Hcu Hfc Hne. unfold query_tokens.
  cbn [app accepts step]. rewrite Hct. cbn [accepts step].
  rewrite accepts_items by done.
  cbn [accepts step after_item]. rewrite Hct.
  cbn [accepts step]. rewrite Hcu.
  cbn [accepts step]. rewrite Hct.
  cbn [accepts step]. rewrite Hcu.
  reflexivity.
Qed.

Lemma valid_name_parts (s : string) :
  valid_name s = true → nonempty s = true ∧ quote_free s = true.
Proof. unfold valid_name. apply andb_true_iff. Qed.

Lemma join_query_well_formed_names (claims_table customers_table : string)
    (fc : list string) :
  valid_name claims_table = true →
  valid_name customers_table = true →
  Forall (λ c, valid_name c = true) fc →
  fc ≠ [] →
  well_formed (join_query claims_table customers_table fc) = true.
Proof.
  intros [Hct1 Hct2]%valid_name_parts [Hcu1 Hcu2]%valid_name_parts Hfc Hne.
  unfold well_formed. rewrite lex_join_query; [|done|done| |done].
  - apply accepts_query_tokens; [done|done| |done].
    eapply Forall_impl; [exact Hfc|]. by intros c [? ?]%valid_name_parts.
  - eapply Forall_impl; [exact Hfc|]. by intros c [? ?]%valid_name_parts.
Qed.

(** ** The feature columns *)

Lemma elem_of_symmetric_difference (X Y : gset string) (c : string) :
  c ∈ symmetric_difference X Y ↔ ((c ∈ X ∧ c ∉ Y) ∨ (c ∈ Y ∧ c ∉ X)).
Proof. unfold symmetric_difference. set_solver. Qed.

Lemma elem_of_feature_columns (claims customers : DataFrame) (fc : list string)
    (c : string) :
  fc ≡ₚ feature_columns claims customers →
  c ∈ fc ↔ ((c ∈ columns claims ∧ c ∉ columns customers)
            ∨ (c ∈ columns customers ∧ c ∉ columns claims)).
Proof.
  intros ->. unfold feature_columns.
  rewrite elem_of_elements, elem_of_symmetric_difference.
  by rewrite !elem_of_list_to_set.
Qed.

Lemma feature_columns_nonempty (claims customers : DataFrame) (fc : list string) :
  fc ≡ₚ feature_columns claims customers →
  list_to_set (columns claims) ≠@{gset string} list_to_set (columns customers) →
  fc ≠ [].
Proof.
  intros Hperm Hdiff ->. apply Hdiff. apply set_eq. intros c.
  pose proof (proj2 (elem_of_feature_columns claims customers [] c Hperm)) as H.
  rewrite !elem_of_list_to_set.
  destruct (decide (c ∈ columns claims)), (decide (c ∈ columns customers));
    try done; exfalso; eapply not_elem_of_nil; apply H; eauto.
Qed.

Lemma declared_names_valid :
  Forall (λ c, valid_name c = true) (claims_dtypes.*1 ++ customers_dtypes.*1).
Proof.
  apply (bool_decide_unpack (Forall (λ c, valid_name c = true)
                               (claims_dtypes.*1 ++ customers_dtypes.*1))).
  vm_compute. exact I.
Qed.

(** ** The join query *)

(** C3 (as amended). For column sets drawn from the declared dtype
    dictionaries that are not equal, whatever the order in which the
    symmetric difference is listed, the assembled query is well formed:
    SELECT DISTINCT, a comma-separated list of non-empty items, FROM,
    LEFT JOIN and an ON clause equating the policy_id columns of the two
    tables. *)
Theorem join_query_well_formed (claims customers : DataFrame)
    (claims_table customers_table : string) (fc : list string) :
  columns claims ⊆ claims_dtypes.*1 →
  columns customers ⊆ customers_dtypes.*1 →
  valid_name claims_table = true →
  valid_name customers_table = true →
  fc ≡ₚ feature_columns claims customers →
  list_to_set (columns claims) ≠@{gset string} list_to_set (columns customers) →
  lex Out (join_query claims_table customers_table fc)
    = Some (query_tokens claims_table customers_table fc)
  ∧ well_formed (join_query claims_table customers_table fc) = true.
Proof.
  intros Hclaims Hcustomers Hct Hcu Hperm Hdiff.
  assert (Hne : fc ≠ []) by by eapply feature_columns_nonempty.
  assert (Hvalid : Forall (λ c, valid_name c = true) fc).
  { apply Forall_forall. intros c Hc.
    pose proof declared_names_valid as Hdecl.
    rewrite Forall_forall in Hdecl. apply Hdecl. rewrite elem_of_app.
    apply (elem_of_feature_columns claims customers fc c Hperm) in Hc
      as [[Hc _]|[Hc _]]; [left|right]; auto. }
  split; [|by apply join_query_well_formed_names].
  apply valid_name_parts in Hct as [_ Hct], Hcu as [_ Hcu].
  apply lex_join_query; [done|done| |done].
  eapply Forall_impl; [exact Hvalid|]. by intros c [? ?]%valid_name_parts.
Qed.

Lemma join_query_well_formed_witness :
  well_formed (join_query "fraud-detect-demo-claims-1" "fraud-detect-demo-customers-1"
                 (feature_columns claims_frame customers_frame)) = true.
Proof.
  apply (join_query_well_formed claims_frame customers_frame).
  - reflexivity.
  - reflexivity.
  - reflexivity.
  - reflexivity.
  - reflexivity.
  - intros Heq.
    assert (Hin : "fraud" ∈@{gset string} list_to_set (columns claims_frame)).
    { apply elem_of_list_to_set. by_evaluation. }
    rewrite Heq in Hin. apply elem_of_list_to_set in Hin.
    revert Hin. by_evaluation.
Defined.

(** C3 (as stated) fails for equal column sets: the symmetric difference
    is empty, the select list ends in a comma, and FROM follows where an
    item is due. *)
Lemma join_query_dangling_comma :
  columns keys_only_frame ⊆ claims_dtypes.*1
  ∧ columns keys_only_frame ⊆ customers_dtypes.*1
  ∧ feature_columns keys_only_frame keys_only_frame = []
  ∧ join_query "claims" "customers" []
    = nl +:+ "SELECT DISTINCT " +:+ quoted "claims"
      +:+ ".policy_id as policy_id, " +:+ nl
      +:+ "FROM " +:+ quoted "claims" +:+ " LEFT JOIN " +:+ quoted "customers"
      +:+ " " +:+ nl +:+ "ON " +:+ quoted "claims" +:+ ".policy_id = "
      +:+ quoted "customers" +:+ ".policy_id" +:+ nl
  ∧ well_formed
      (join_query "claims" "customers"
         (feature_columns keys_only_frame keys_only_frame)) = false.
Proof.
  split; [|split; [|split; [|split]]].
  - by_evaluation.
  - by_evaluation.
  - vm_compute. reflexivity.
  - vm_compute. reflexivity.
  - vm_compute. reflexivity.
Qed.




(** ** Train and test frames *)

Example set_column_event_time :
  set_column (tiny_frame ["policy_id"; "fraud"]) "event_time" "1.0"
    = {| columns := ["policy_id"; "fraud"; "event_time"];
         records := [(0%Z, ["0"; "0"; "1.0"])] |}
  ∧ set_column (tiny_frame ["policy_id"; "event_time"]) "event_time" "1.0"
    = {| columns := ["policy_id"; "event_time"];
         records := [(0%Z, ["0"; "1.0"])] |}.
Proof. split; vm_compute; reflexivity. Qed.

Example train_test_split_small :
  train_test_split small_dataset [3; 0; 4; 1; 2] =
    inr ({| columns := ["fraud"; "incident_severity"; "customer_age"];
            records := [(3%Z, ["0"; "3"; "23"]); (0%Z, ["0"; "1"; "40"]);
                        (4%Z, ["1"; "2"; "62"]); (1%Z, ["1"; "2"; "31"])] |},
         {| columns := ["fraud"; "incident_severity"; "customer_age"];
            records := [(2%Z, ["0"; "1"; "55"])] |}).
Proof. vm_compute. reflexivity. Qed.

Lemma first_missing_None {A} `{EqDecision A} (labels present : list A) :
  labels ⊆ present → first_missing labels present = None.
Proof.
  intros Hsub. unfold first_missing.
  assert (list_find (λ l, l ∉ present) labels = None) as ->; [|done].
  apply list_find_None, Forall_forall. intros l Hl Hn. apply Hn, Hsub, Hl.
Qed.

Lemma positions_singleton (cols : list string) (i : nat) (c : string) :
  NoDup cols → cols !! i = Some c → positions cols c = [i].
Proof.
  intros Hnodup Hi. apply Permutation_singleton_r, NoDup_Permutation.
  - apply NoDup_filter, NoDup_seq.
  - apply NoDup_singleton.
  - intros j. unfold positions.
    rewrite list_elem_of_filter, elem_of_seq, list_elem_of_singleton. split.
    + intros [Hj _]. by eapply NoDup_lookup.
    + intros ->. split; [done|]. apply lookup_lt_Some in Hi. lia.
Qed.

(** With distinct column labels, [df[labels]] has exactly the labels
    asked for as its columns. *)
Lemma take_cells_positions (cols labels : list string) :
  NoDup cols → labels ⊆ cols →
  take_cells (labels ≫= positions cols) cols = labels.
Proof.
  intros Hnodup. induction labels as [|l labels IH]; intros Hsub; [done|].
  assert (l ∈ cols) as [i Hi]%list_elem_of_lookup by (apply Hsub; left).
  cbn [mbind list_bind]. rewrite (positions_singleton cols i l) by done.
  unfold take_cells in *. cbn [fmap list_fmap app].
  rewrite (list_lookup_total_correct _ _ _ Hi). f_equal.
  apply IH. intros x Hx. apply Hsub. by right.
Qed.

Lemma getitem_columns_ok (df : DataFrame) (labels : list string) :
  NoDup (columns df) → labels ⊆ columns df →
  ∃ df', getitem_columns df labels = inr df'
         ∧ columns df' = labels ∧ index df' = index df.
Proof.
  intros Hnodup Hsub. unfold getitem_columns.
  rewrite first_missing_None by done. eexists. split; [reflexivity|].
  cbn [columns]. split; [by apply take_cells_positions|].
  unfold index. cbn [records]. rewrite <- list_fmap_compose.
  apply list_fmap_ext. by intros ? [].
Qed.

Lemma take_cells_positions_lookup (cols labels cells : list string)
    (j q : nat) (c : string) :
  NoDup cols → labels ⊆ cols →
  labels !! j = Some c → cols !! q = Some c →
  take_cells (labels ≫= positions cols) cells !! j = Some (cells !!! q).
Proof.
  intros Hnodup. revert j. induction labels as [|l labels IH];
    intros j Hsub Hj Hq; [done|].
  assert (l ∈ cols) as [i Hi]%list_elem_of_lookup by (apply Hsub; left).
  cbn [mbind list_bind]. rewrite (positions_singleton cols i l) by done.
  unfold take_cells in *. cbn [fmap list_fmap app].
  destruct j as [|j]; cbn [lookup list_lookup] in *.
  - injection Hj as ->. by rewrite (NoDup_lookup cols i q c Hnodup Hi Hq).
  - apply IH; [|done|done]. intros x Hx. apply Hsub. by right.
Qed.

(** With distinct column labels, each row of [df[labels]] is the row of
    [df] at the same place, holding under each label asked for the cell
    the row had under that label. *)
Lemma getitem_columns_cells (df df' : DataFrame) (labels : list string) :
  NoDup (columns df) → labels ⊆ columns df →
  getitem_columns df labels = inr df' →
  ∀ i r, records df' !! i = Some r →
    ∃ row, records df !! i = Some row
           ∧ r.1 = row.1
           ∧ length r.2 = length labels
           ∧ ∀ j c q, labels !! j = Some c → columns df !! q = Some c →
               r.2 !! j = Some (row.2 !!! q).
Proof.
  intros Hnodup Hsub. unfold getitem_columns.
  rewrite first_missing_None by done. intros [= <-] i r. cbn [records].
  rewrite list_lookup_fmap.
  destruct (records df !! i) as [row|]; [|done]. intros [= <-].
  exists row. split; [done|]. split; [done|]. cbn [snd]. split.
  - rewrite <- (take_cells_positions (columns df) labels) at 2 by done.
    unfold take_cells. by rewrite !length_fmap.
  - intros j c q Hj Hq. by eapply take_cells_positions_lookup.
Qed.

Lemma drop_columns_ok (df : DataFrame) (labels : list string) :
  labels ⊆ columns df →
  ∃ df', drop_columns df labels = inr df'
         ∧ columns df' = filter (λ c, c ∉ labels) (columns df).
Proof.
  intros Hsub. unfold drop_columns. rewrite first_missing_None by done.
  eexists. split; reflexivity.
Qed.

Lemma drop_rows_ok (df : DataFrame) (labels : list Z) :
  labels ⊆ index df →
  ∃ df', drop_rows df labels = inr df'
         ∧ columns df' = columns df
         ∧ index df' = filter (λ l, l ∉ labels) (index df).
Proof.
  intros Hsub. unfold drop_rows. rewrite first_missing_None by done.
  eexists. split; [reflexivity|]. split; [reflexivity|].
  unfold index. cbn [records].
  induction (records df) as [|r rs IH]; [done|].
  rewrite fmap_cons, !filter_cons. cbn [fst].
  destruct (decide (r.1 ∉ labels)); by rewrite ?fmap_cons, IH.
Qed.

Lemma index_sample (df : DataFrame) (frac : Q) (rng : list nat) :
  index (sample df frac rng)
  = omap (λ p, index df !! p) (take (sample_size frac (length (records df))) rng).
Proof.
  unfold index, sample. cbn [records].
  induction (take _ rng) as [|p ps IH]; [done|].
  cbn [omap list_omap]. rewrite list_lookup_fmap.
  destruct (records df !! p); cbn; by rewrite IH.
Qed.

Lemma index_sample_subseteq (df : DataFrame) (frac : Q) (rng : list nat) :
  index (sample df frac rng) ⊆ index df.
Proof.
  intros l. rewrite index_sample, list_elem_of_omap.
  intros (p & _ & Hp). by eapply list_elem_of_lookup_2.
Qed.

(** An 80% sample never asks for more rows than there are. *)
Lemma sample_size_le (n : nat) : sample_size (8 # 10) n ≤ n.
Proof.
  unfold sample_size, round_half_even. cbn [Qmult inject_Z Qnum Qden].
  change (Z.pos (10 * 1)) with 10%Z.
  pose proof (Z.div_mod (8 * Z.of_nat n) 10 ltac:(lia)) as Hdiv.
  pose proof (Z.mod_pos_bound (8 * Z.of_nat n) 10 ltac:(lia)) as Hmod.
  destruct (Z.compare_spec (2 * ((8 * Z.of_nat n) `mod` 10)) 10) as [Hcmp|Hcmp|Hcmp].
  - destruct (Z.even _); lia.
  - lia.
  - lia.
Qed.

(** Four fifths of the rows, to the nearest row; ties cannot occur. *)
Lemma sample_size_four_fifths (n : nat) : sample_size (8 # 10) n = (4 * n + 2) / 5.
Proof.
  apply Nat2Z.inj. rewrite Nat2Z.inj_div.
  unfold sample_size, round_half_even. cbn [Qmult inject_Z Qnum Qden].
  change (Z.pos (10 * 1)) with 10%Z.
  replace (Z.of_nat (4 * n + 2)) with (4 * Z.of_nat n + 2)%Z by lia.
  change (Z.of_nat 5) with 5%Z.
  pose proof (Z.div_mod (8 * Z.of_nat n) 10 ltac:(lia)) as Hdiv.
  pose proof (Z.mod_pos_bound (8 * Z.of_nat n) 10 ltac:(lia)) as Hmod.
  pose proof (Z.div_mod (4 * Z.of_nat n + 2) 5 ltac:(lia)) as Hdiv'.
  pose proof (Z.mod_pos_bound (4 * Z.of_nat n + 2) 5 ltac:(lia)) as Hmod'.
  generalize dependent ((8 * Z.of_nat n) `mod` 10)%Z. intros r Hdiv Hr.
  generalize dependent ((8 * Z.of_nat n) `div` 10)%Z. intros q Hdiv.
  generalize dependent ((4 * Z.of_nat n + 2) `mod` 5)%Z. intros r' Hdiv' Hr'.
  generalize dependent ((4 * Z.of_nat n + 2) `div` 5)%Z. intros q' Hdiv'.
  assert (Hq : (0 ≤ q)%Z) by lia.
  assert (Hgap : (10 * (q' - q) = r + 4 - 2 * r')%Z) by lia.
  destruct (Z.compare_spec (2 * r) 10) as [Hcmp|Hcmp|Hcmp].
  - exfalso. lia.
  - rewrite Z2Nat.id by lia. lia.
  - rewrite Z2Nat.id by lia. lia.
Qed.

Example round_half_even_ties :
  round_half_even (1 # 2) = 0%Z ∧ round_half_even (3 # 2) = 2%Z
  ∧ round_half_even (5 # 2) = 2%Z ∧ round_half_even (24 # 10) = 2%Z.
Proof. repeat split. Qed.

Lemma length_omap_lookup {A} (l : list A) (ps : list nat) :
  Forall (λ p, p < length l) ps → length (omap (λ p, l !! p) ps) = length ps.
Proof.
  induction 1 as [|p ps Hp _ IH]; [done|].
  cbn [omap list_omap]. destruct (lookup_lt_is_Some_2 l p Hp) as [x ->].
  cbn. by rewrite IH.
Qed.

Lemma NoDup_omap_lookup {A} (l : list A) (ps : list nat) :
  NoDup l → NoDup ps → NoDup (omap (λ p, l !! p) ps).
Proof.
  intros Hl. induction 1 as [|p ps Hp Hps IH]; [constructor|].
  cbn [omap list_omap]. destruct (l !! p) as [x|] eqn:Hx; [|done].
  cbn. constructor; [|done].
  rewrite list_elem_of_omap. intros (q & Hq & Hlq).
  by rewrite (NoDup_lookup l p q x Hl Hx Hlq) in Hp.
Qed.

Lemma length_sample (df : DataFrame) (rng : list nat) :
  rng ≡ₚ seq 0 (length (records df)) →
  length (records (sample df (8 # 10) rng))
  = sample_size (8 # 10) (length (records df)).
Proof.
  intros Hperm. unfold sample. cbn [records].
  rewrite length_omap_lookup.
  - rewrite length_take, Hperm, length_seq.
    pose proof (sample_size_le (length (records df))). lia.
  - apply Forall_forall. intros p [i [Hp _]]%elem_of_take.
    apply list_elem_of_lookup_2 in Hp. rewrite Hperm in Hp.
    apply elem_of_seq in Hp. lia.
Qed.

Lemma NoDup_index_sample (df : DataFrame) (frac : Q) (rng : list nat) :
  NoDup (index df) → NoDup rng → NoDup (index (sample df frac rng)).
Proof.
  intros Hidx Hrng. rewrite index_sample.
  apply NoDup_omap_lookup; [done|].
  rewrite <- (take_drop (sample_size frac (length (records df))) rng) in Hrng.
  by apply NoDup_app in Hrng as [? _].
Qed.

(** Rows kept and rows dropped add up when the labels dropped are
    distinct labels of a frame with distinct labels. *)
Lemma length_filter_complement (l picked : list Z) :
  NoDup l → NoDup picked → picked ⊆ l →
  length picked + length (filter (λ x, x ∉ picked) l) = length l.
Proof.
  intros Hl Hpicked Hsub.
  pose proof (Permutation_length (filter_app_complement (λ x, x ∈ picked) l))
    as Hsplit.
  rewrite length_app in Hsplit. rewrite <- Hsplit. f_equal.
  apply Permutation_length, NoDup_Permutation; [done|by apply NoDup_filter|].
  intros x. rewrite list_elem_of_filter. split; [|by intros [? _]].
  intros Hx. split; [done|]. by apply Hsub.
Qed.

(** C10. For a joined dataset (distinct column labels, among them fraud
    and policy_id) the split succeeds; train holds the rows at the
    first round(0.8 n) positions drawn by the seeded generator (four
    fifths of the rows, to the nearest row) and test the rows whose
    label is not in train, so the two index sets are disjoint and
    together make up the dataset's; both frames carry fraud first, then
    every other column except policy_id, in the dataset's order, and
    each of their rows holds under every column the cell its dataset
    row has under that column. *)
Theorem train_test_partition (dataset : DataFrame) (rng : list nat) :
  NoDup (columns dataset) →
  "fraud" ∈ columns dataset →
  "policy_id" ∈ columns dataset →
  ∃ train test,
    train_test_split dataset rng = inr (train, test)
    ∧ columns train
      = "fraud" :: filter (λ c, c ∉ ["fraud"; "policy_id"]) (columns dataset)
    ∧ columns test = columns train
    ∧ NoDup (columns train)
    ∧ ("policy_id" ∉ columns train)
    ∧ (∀ c, c ∈ columns dataset → c ≠ "policy_id" → c ∈ columns train)
    ∧ index train = index (sample dataset (8 # 10) rng)
    ∧ index test = filter (λ l, l ∉ index train) (index dataset)
    ∧ list_to_set (index train) ## list_to_set (C := gset Z) (index test)
    ∧ list_to_set (index train) ∪ list_to_set (index test)
      = list_to_set (C := gset Z) (index dataset)
    ∧ (rng ≡ₚ seq 0 (length (records dataset)) →
       length (records train) = (4 * length (records dataset) + 2) / 5
       ∧ (NoDup (index dataset) →
          length (records train) + length (records test)
          = length (records dataset)))
    ∧ (∀ i r, records train !! i = Some r →
         ∃ row, records (sample dataset (8 # 10) rng) !! i = Some row
                ∧ row ∈ records dataset
                ∧ r.1 = row.1
                ∧ length r.2 = length (columns train)
                ∧ ∀ j c q, columns train !! j = Some c →
                    columns dataset !! q = Some c →
                    r.2 !! j = Some (row.2 !!! q))
    ∧ (∀ i r, records test !! i = Some r →
         ∃ row, filter (λ row, row.1 ∉ index train) (records dataset) !! i
                = Some row
                ∧ row ∈ records dataset
                ∧ r.1 = row.1
                ∧ length r.2 = length (columns test)
                ∧ ∀ j c q, columns test !! j = Some c →
                    columns dataset !! q = Some c →
                    r.2 !! j = Some (row.2 !!! q)).
Proof.
  intros Hnodup Hfraud Hpolicy.
  set (order := "fraud" :: filter (λ c, c ∉ ["fraud"; "policy_id"]) (columns dataset)).
  assert (Hlabels : ["fraud"; "policy_id"] ⊆ columns dataset).
  { intros c [->|[->|[]%elem_of_nil]%elem_of_cons]%elem_of_cons; done. }
  assert (Horder : order ⊆ columns dataset).
  { intros c [->|Hc%list_elem_of_filter]%elem_of_cons; [done|]. by destruct Hc. }
  destruct (drop_columns_ok dataset _ Hlabels) as (rest & Hdrop & Hrest).
  destruct (getitem_columns_ok (sample dataset (8 # 10) rng) order Hnodup Horder)
    as (train & Htrain & Htrain_cols & Htrain_idx).
  assert (Hsub : index train ⊆ index dataset).
  { rewrite Htrain_idx. apply index_sample_subseteq. }
  destruct (drop_rows_ok dataset (index train) Hsub)
    as (others & Hothers & Hothers_cols & Hothers_idx).
  destruct (getitem_columns_ok others order) as (test & Htest & Htest_cols & Htest_idx);
    [by rewrite Hothers_cols | by rewrite Hothers_cols |].
  exists train, test.
  assert (Hrun : train_test_split dataset rng = inr (train, test)).
  { unfold train_test_split, col_order. rewrite Hdrop. cbn [and_then].
    rewrite Hrest. fold order. rewrite Htrain. cbn [and_then].
    rewrite Hothers. cbn [and_then]. by rewrite Htest. }
  assert (Htest_index : index test = filter (λ l, l ∉ index train) (index dataset)).
  { by rewrite Htest_idx, Hothers_idx. }
  split; [exact Hrun|]. split; [exact Htrain_cols|].
  split; [by rewrite Htest_cols, Htrain_cols|].
  split; [|split; [|split; [|split; [|split; [|split; [|split; [|split; [|split]]]]]]]].
  - rewrite Htrain_cols. subst order. constructor.
    + rewrite list_elem_of_filter. intros [Hn _]. apply Hn. by left.
    + by apply NoDup_filter.
  - rewrite Htrain_cols. subst order.
    intros [?|[Hn _]%list_elem_of_filter]%elem_of_cons; [done|].
    apply Hn. right. by left.
  - intros c Hc Hne. rewrite Htrain_cols. subst order.
    destruct (decide (c = "fraud")) as [->|Hnf]; [by left|].
    right. apply list_elem_of_filter. split; [|done].
    intros [->|[->|[]%elem_of_nil]%elem_of_cons]%elem_of_cons; done.
  - exact Htrain_idx.
  - exact Htest_index.
  - intros l Hl1%elem_of_list_to_set Hl2%elem_of_list_to_set.
    rewrite Htest_index in Hl2. apply list_elem_of_filter in Hl2 as [Hn _]. done.
  - apply set_eq. intros l.
    rewrite elem_of_union, !elem_of_list_to_set, Htest_index, list_elem_of_filter.
    split.
    + intros [Hl|[_ Hl]]; [by apply Hsub|done].
    + intros Hl. destruct (decide (l ∈ index train)); [by left|by right].
  - intros Hperm.
    assert (Hlen : ∀ df, length (index df) = length (records df)).
    { intros df. unfold index. apply length_fmap. }
    split.
    + rewrite <- sample_size_four_fifths, <- Hlen, Htrain_idx, Hlen.
      by apply length_sample.
    + intros Hidx. rewrite <- !Hlen, Htest_index.
      apply length_filter_complement; [done| |done].
      rewrite Htrain_idx. apply NoDup_index_sample; [done|].
      rewrite Hperm. apply NoDup_seq.
  - intros i r Hr.
    destruct (getitem_columns_cells (sample dataset (8 # 10) rng) train order
                Hnodup Horder Htrain i r Hr)
      as (row & Hrow & Hlabel & Hlen & Hcells).
    exists row. split; [done|]. split.
    { unfold sample in Hrow. cbn [records] in Hrow.
      apply list_elem_of_lookup_2, list_elem_of_omap in Hrow as (p & _ & Hp).
      by eapply list_elem_of_lookup_2. }
    split; [done|]. split; [by rewrite Htrain_cols|].
    intros j c q Hj Hq. rewrite Htrain_cols in Hj. by eapply Hcells.
  - intros i r Hr.
    assert (Hothers_rows : records others
                           = filter (λ row, row.1 ∉ index train) (records dataset)).
    { unfold drop_rows in Hothers.
      rewrite first_missing_None in Hothers by done. by injection Hothers as <-. }
    assert (Hothers_nodup : NoDup (columns others)) by by rewrite Hothers_cols.
    assert (Hothers_order : order ⊆ columns others) by by rewrite Hothers_cols.
    destruct (getitem_columns_cells others test order
                Hothers_nodup Hothers_order Htest i r Hr)
      as (row & Hrow & Hlabel & Hlen & Hcells).
    rewrite Hothers_rows in Hrow.
    exists row. split; [done|]. split.
    { apply list_elem_of_lookup_2, list_elem_of_filter in Hrow. by destruct Hrow. }
    split; [done|]. split; [by rewrite Htest_cols|].
    intros j c q Hj Hq. rewrite Htest_cols in Hj.
    rewrite <- Hothers_cols in Hq. by eapply Hcells.
Qed.

Lemma train_test_partition_witness :
  ∃ train test,
    train_test_split small_dataset [3; 0; 4; 1; 2] = inr (train, test)
    ∧ columns train = ["fraud"; "incident_severity"; "customer_age"]
    ∧ columns test = ["fraud"; "incident_severity"; "customer_age"]
    ∧ index train = [3; 0; 4; 1]%Z
    ∧ index test = [2]%Z
    ∧ (∀ r, records train !! 0 = Some r →
         r.2 !! 0 = Some "0" ∧ r.2 !! 1 = Some "3" ∧ r.2 !! 2 = Some "23")
    ∧ (∀ r, records test !! 0 = Some r →
         r.2 !! 0 = Some "0" ∧ r.2 !! 1 = Some "1" ∧ r.2 !! 2 = Some "55").
Proof.
  destruct (train_test_partition small_dataset [3; 0; 4; 1; 2])
    as (train & test & Hrun & Hcols & Hcols' & _ & _ & _ & Hidx & Hidx' & _ & _
        & _ & Htrain & Htest).
  - by_evaluation.
  - by_evaluation.
  - by_evaluation.
  - exists train, test. split; [exact Hrun|].
    split; [rewrite Hcols; reflexivity|].
    split; [rewrite Hcols', Hcols; reflexivity|].
    split; [rewrite Hidx; reflexivity|].
    split; [rewrite Hidx', Hidx; reflexivity|]. split.
    + intros r Hr. destruct (Htrain 0 r Hr) as (row & Hrow & _ & _ & _ & Hcells).
      vm_compute in Hrow. injection Hrow as <-.
      rewrite (Hcells 0 "fraud" 2), (Hcells 1 "incident_severity" 1),
        (Hcells 2 "customer_age" 3); rewrite ?Hcols; done.
    + intros r Hr. destruct (Htest 0 r Hr) as (row & Hrow & _ & _ & _ & Hcells).
      rewrite Hidx in Hrow. vm_compute in Hrow. injection Hrow as <-.
      rewrite (Hcells 0 "fraud" 2), (Hcells 1 "incident_severity" 1),
        (Hcells 2 "customer_age" 3); rewrite ?Hcols', ?Hcols; done.
Defined.

(** * Further properties of the notebooks' code *)

(** ** [str.split] and [str.join] *)

Lemma split_on_nonempty (sep : ascii) (s : string) : Pipeline.split_on sep s ≠ [].
Proof.
  destruct s as [|c s]; cbn [Pipeline.split_on]; [done|].
  case_decide; [done|]. by destruct (Pipeline.split_on sep s).
Qed.

Lemma split_on_free (sep : ascii) (s : string) :
  lacks sep s = true → Pipeline.split_on sep s = [s].
Proof.
  induction s as [|c s IH]; [done|]. cbn [lacks Pipeline.split_on].
  intros [Hc Hs]%andb_true_iff.
  apply negb_true_iff, bool_decide_eq_false in Hc.
  rewrite decide_False by done. by rewrite IH.
Qed.

Lemma split_on_app (sep : ascii) (x y : string) :
  lacks sep x = true →
  Pipeline.split_on sep (x +:+ String sep y) = x :: Pipeline.split_on sep y.
Proof.
  induction x as [|c x IH]; intros Hfree.
  - change (EmptyString +:+ String sep y) with (String sep y).
    cbn [Pipeline.split_on]. by rewrite decide_True.
  - cbn [lacks] in Hfree. apply andb_true_iff in Hfree as [Hc Hx].
    apply negb_true_iff, bool_decide_eq_false in Hc.
    rewrite string_app_cons. cbn [Pipeline.split_on].
    rewrite decide_False by done. by rewrite IH.
Qed.

Lemma concat_cons_cons (sep x y : string) (l : list string) :
  String.concat sep (x :: y :: l) = x +:+ sep +:+ String.concat sep (y :: l).
Proof. reflexivity. Qed.

Lemma join_split_on (sep : ascii) (s : string) :
  String.concat (String sep EmptyString) (Pipeline.split_on sep s) = s.
Proof.
  induction s as [|c s IH]; [done|]. cbn [Pipeline.split_on].
  pose proof (split_on_nonempty sep s) as Hne.
  destruct (Pipeline.split_on sep s) as [|w ws] eqn:Hsplit; [done|].
  case_decide as Hc.
  - subst c. rewrite concat_cons_cons, IH. reflexivity.
  - destruct ws as [|w' ws].
    + cbn [String.concat] in *. by rewrite IH.
    + rewrite concat_cons_cons, string_app_cons.
      rewrite concat_cons_cons in IH. by rewrite IH.
Qed.

Lemma length_split_on (sep : ascii) (s : string) :
  length (Pipeline.split_on sep s) = S (occurrences sep s).
Proof.
  induction s as [|c s IH]; [done|]. cbn [Pipeline.split_on occurrences].
  pose proof (split_on_nonempty sep s) as Hne.
  case_decide; cbn [length]; [by rewrite IH|].
  destruct (Pipeline.split_on sep s); [done|]. cbn [length] in *. lia.
Qed.

Lemma split_on_parts_free (sep : ascii) (s : string) :
  Forall (λ w, lacks sep w = true) (Pipeline.split_on sep s).
Proof.
  induction s as [|c s IH]; [by repeat constructor|]. cbn [Pipeline.split_on].
  case_decide as Hc; [by constructor|].
  pose proof (split_on_nonempty sep s) as Hne.
  destruct (Pipeline.split_on sep s) as [|w ws]; [done|].
  inversion IH; subst. constructor; [|done]. cbn [lacks].
  apply andb_true_iff. split; [|done].
  by apply negb_true_iff, bool_decide_eq_false.
Qed.

Lemma split_on_app_split (sep : ascii) (x y : string) :
  Pipeline.split_on sep (x +:+ String sep y)
  = Pipeline.split_on sep x ++ Pipeline.split_on sep y.
Proof.
  induction x as [|c x IH].
  - change (EmptyString +:+ String sep y) with (String sep y).
    cbn [Pipeline.split_on]. by rewrite decide_True.
  - rewrite string_app_cons. cbn [Pipeline.split_on]. rewrite IH.
    pose proof (split_on_nonempty sep x) as Hne.
    case_decide; [done|]. by destruct (Pipeline.split_on sep x).
Qed.

Lemma concat_snoc (sep n : string) (l : list string) :
  l ≠ [] →
  String.concat sep (l ++ [n]) = String.concat sep l +:+ sep +:+ n.
Proof.
  induction l as [|x l IH]; [done|]. intros _.
  destruct l as [|y l]; [reflexivity|].
  change ((x :: y :: l) ++ [n]) with (x :: y :: (l ++ [n])).
  rewrite !concat_cons_cons.
  change (y :: l ++ [n]) with ((y :: l) ++ [n]). rewrite IH by done.
  by rewrite !string_app_assoc.
Qed.

(** X1. [split("/")[-1]] never fails: it yields the text after the last
    slash of the ARN, or the whole ARN when there is no slash. *)
Theorem role_name_last_component (arn : string) :
  ∃ n, role_name arn = inr n
       ∧ lacks "/" n = true
       ∧ (arn = n ∨ ∃ p, arn = p +:+ "/" +:+ n).
Proof.
  unfold role_name.
  pose proof (split_on_nonempty "/" arn) as Hne.
  pose proof (split_on_parts_free "/" arn) as Hfree.
  pose proof (join_split_on "/" arn) as Hjoin.
  destruct (last (Pipeline.split_on "/" arn)) as [n|] eqn:Hlast;
    [|by apply last_None in Hlast].
  apply last_Some in Hlast as [init Hparts]. rewrite Hparts in Hfree, Hjoin.
  exists n. split; [done|].
  apply Forall_app in Hfree as [_ Hn]. rewrite Forall_singleton in Hn.
  split; [exact Hn|].
  destruct init as [|w ws]; [left; by rewrite <- Hjoin|]. right.
  rewrite concat_snoc in Hjoin by done. eexists. by rewrite <- Hjoin.
Qed.

(** X2. For an input of the form a/b/bucket/key, with a, b and bucket
    free of slashes (for an S3 URI, a is [s3:] and b is empty), the
    script recovers the bucket and the whole key, slashes included;
    without a key part the key is empty. *)
Theorem parse_input_data_uri (a b bucket key : string) :
  lacks "/" a = true → lacks "/" b = true → lacks "/" bucket = true →
  parse_input_data (a +:+ "/" +:+ b +:+ "/" +:+ bucket +:+ "/" +:+ key)
    = inr (bucket, key)
  ∧ parse_input_data (a +:+ "/" +:+ b +:+ "/" +:+ bucket) = inr (bucket, EmptyString).
Proof.
  intros Ha Hb Hbucket. unfold parse_input_data. split.
  - change (a +:+ "/" +:+ b +:+ "/" +:+ bucket +:+ "/" +:+ key)
      with (a +:+ String "/" (b +:+ String "/" (bucket +:+ String "/" key))).
    rewrite !split_on_app by done. cbn [lookup list_lookup drop].
    by rewrite drop_0, join_split_on.
  - change (a +:+ "/" +:+ b +:+ "/" +:+ bucket)
      with (a +:+ String "/" (b +:+ String "/" bucket)).
    rewrite !split_on_app, split_on_free by done. reflexivity.
Qed.

Lemma parse_input_data_uri_witness :
  parse_input_data
    "s3://sagemaker-sample-files/datasets/tabular/uci_abalone/abalone.csv"
  = inr ("sagemaker-sample-files", "datasets/tabular/uci_abalone/abalone.csv").
Proof.
  exact (proj1 (parse_input_data_uri "s3:" EmptyString "sagemaker-sample-files"
                  "datasets/tabular/uci_abalone/abalone.csv"
                  eq_refl eq_refl eq_refl)).
Defined.

(** X3. The script fails with [IndexError] exactly on inputs with fewer
    than two slashes; whenever it succeeds the bucket is free of
    slashes. *)
Theorem parse_input_data_index_error (input_data : string) :
  (parse_input_data input_data = inl index_error
   ↔ occurrences "/" input_data < 2)
  ∧ (∀ bucket key,
       parse_input_data input_data = inr (bucket, key) →
       lacks "/" bucket = true ∧ 2 ≤ occurrences "/" input_data).
Proof.
  unfold parse_input_data.
  pose proof (length_split_on "/" input_data) as Hlen.
  pose proof (split_on_parts_free "/" input_data) as Hfree.
  destruct (Pipeline.split_on "/" input_data !! 2) as [bucket|] eqn:Hpart.
  - pose proof (lookup_lt_Some _ _ _ Hpart) as Hlt. split.
    + split; [done|]. lia.
    + intros ? ? [= <- <-]. split; [|lia].
      rewrite Forall_forall in Hfree. apply Hfree.
      by eapply list_elem_of_lookup_2.
  - apply lookup_ge_None in Hpart. split; [|done]. split; [lia|done].
Qed.

Lemma parse_input_data_index_error_witness :
  parse_input_data "s3:bucket" = inl index_error
  ∧ lacks "/" "bucket" = true
  ∧ 2 ≤ occurrences "/" "s3://bucket/abalone.csv".
Proof.
  split.
  - apply (proj2 (proj1 (parse_input_data_index_error "s3:bucket"))).
    by_evaluation.
  - apply (proj2 (parse_input_data_index_error "s3://bucket/abalone.csv")
             "bucket" "abalone.csv").
    reflexivity.
Defined.

(** ** [merge_two_dicts] *)

Lemma field_cons {V} (k k' : string) (v : V) (d : list (string * V)) :
  Pipeline.field k ((k', v) :: d)
  = if decide (k' = k) then Some v else Pipeline.field k d.
Proof.
  unfold Pipeline.field. cbn [list_find fst].
  case_decide; [done|]. by destruct (list_find _ d) as [[? ?]|].
Qed.

Lemma field_None {V} (k : string) (d : list (string * V)) :
  k ∉ d.*1 → Pipeline.field k d = None.
Proof.
  induction d as [|[k' v] d IH]; [done|]. rewrite fmap_cons, not_elem_of_cons.
  intros [Hne Hd]. rewrite field_cons, decide_False by done. by apply IH.
Qed.

Lemma field_dict_set {V} (k k' : string) (v : V) (d : list (string * V)) :
  Pipeline.field k (dict_set k' v d)
  = if decide (k' = k) then Some v else Pipeline.field k d.
Proof.
  induction d as [|[k0 v0] d IH]; cbn [dict_set].
  - rewrite field_cons. by case_decide.
  - destruct (decide (k0 = k')) as [->|Hne].
    + rewrite !field_cons. by case_decide.
    + rewrite !field_cons, IH. repeat case_decide; congruence.
Qed.

Lemma keys_dict_set {V} (k : string) (v : V) (d : list (string * V)) :
  (dict_set k v d).*1 = if decide (k ∈ d.*1) then d.*1 else d.*1 ++ [k].
Proof.
  induction d as [|[k0 v0] d IH]; cbn [dict_set].
  - rewrite decide_False by apply not_elem_of_nil. reflexivity.
  - destruct (decide (k0 = k)) as [->|Hne].
    + rewrite decide_True by (rewrite fmap_cons; left). reflexivity.
    + rewrite !fmap_cons, IH. cbn [fst].
      destruct (decide (k ∈ d.*1)) as [Hin|Hout].
      * rewrite decide_True by by right. reflexivity.
      * rewrite decide_False; [reflexivity|].
        rewrite not_elem_of_cons. split; [congruence|done].
Qed.

Lemma filter_ext_in {A} (P1 P2 : A → Prop)
    `{!∀ x, Decision (P1 x), !∀ x, Decision (P2 x)} (l : list A) :
  (∀ x, x ∈ l → (P1 x ↔ P2 x)) → filter P1 l = filter P2 l.
Proof.
  induction l as [|a l IH]; intros Hiff; [done|].
  rewrite !filter_cons.
  rewrite IH by (intros x Hx; apply Hiff; by right).
  apply decide_ext, Hiff. by left.
Qed.

Lemma dict_update_lookup {V} (y : list (string * V)) :
  ∀ (acc : list (string * V)) (k : string),
    NoDup y.*1 →
    Pipeline.field k (dict_update acc y)
    = match Pipeline.field k y with
      | Some v => Some v
      | None => Pipeline.field k acc
      end.
Proof.
  unfold dict_update.
  induction y as [|[k1 v1] y IH]; intros acc k Hnodup; [done|].
  rewrite fmap_cons in Hnodup. apply NoDup_cons in Hnodup as [Hk1 Hy].
  cbn [foldl fst snd]. rewrite IH by done.
  rewrite field_cons, field_dict_set.
  destruct (decide (k1 = k)) as [->|Hne]; [|done].
  by rewrite field_None.
Qed.

Lemma dict_update_keys {V} (y : list (string * V)) :
  ∀ (acc : list (string * V)),
    NoDup y.*1 →
    (dict_update acc y).*1 = acc.*1 ++ filter (λ k, k ∉ acc.*1) y.*1.
Proof.
  unfold dict_update.
  induction y as [|[k1 v1] y IH]; intros acc Hnodup.
  - cbn. by rewrite app_nil_r.
  - rewrite fmap_cons in Hnodup. apply NoDup_cons in Hnodup as [Hk1 Hy].
    cbn [foldl fst snd]. rewrite IH by done. rewrite keys_dict_set.
    rewrite fmap_cons, filter_cons. cbn [fst].
    destruct (decide (k1 ∈ acc.*1)) as [Hin|Hout].
    + by rewrite decide_False by (intros Hn; by apply Hn).
    + rewrite decide_True by done. rewrite <- app_assoc. cbn [app]. do 2 f_equal.
      apply filter_ext_in. intros k Hk.
      rewrite elem_of_app, list_elem_of_singleton.
      split; [tauto|]. intros Hn [?| ->]; done.
Qed.

(** X4. [merge_two_dicts(x, y)] binds every key of [y] to [y]'s value
    and every other key as [x] does; its keys are those of [x] in
    [x]'s order followed by the new keys of [y] in [y]'s order, still
    distinct. *)
Theorem merge_two_dicts_spec {V} (x y : list (string * V)) :
  NoDup x.*1 → NoDup y.*1 →
  (∀ k, Pipeline.field k (merge_two_dicts x y)
        = match Pipeline.field k y with
          | Some v => Some v
          | None => Pipeline.field k x
          end)
  ∧ (merge_two_dicts x y).*1 = x.*1 ++ filter (λ k, k ∉ x.*1) y.*1
  ∧ NoDup (merge_two_dicts x y).*1.
Proof.
  intros Hx Hy. unfold merge_two_dicts. cbn zeta.
  split; [|split].
  - intros k. by apply dict_update_lookup.
  - by apply dict_update_keys.
  - rewrite dict_update_keys by done. apply NoDup_app. split; [done|].
    split; [|by apply NoDup_filter].
    intros k Hk [Hn _]%list_elem_of_filter. done.
Qed.

Lemma merge_two_dicts_spec_witness :
  (merge_two_dicts feature_columns_dtype label_column_dtype).*1
  = feature_columns_names ++ [label_column].
Proof.
  destruct (merge_two_dicts_spec feature_columns_dtype label_column_dtype)
    as (_ & Hkeys & _).
  - by_evaluation.
  - by_evaluation.
  - rewrite Hkeys. vm_compute. reflexivity.
Defined.

(** ** Label column, three-way split, and reading the label back *)

Lemma zip_with_reshape_column (y : list Q) (X : list (list Q)) :
  zip_with app (reshape_column y) X = zip_with cons y X.
Proof.
  unfold reshape_column. revert X.
  induction y as [|v y IH]; intros [|x X]; cbn; [done..|]. by rewrite IH.
Qed.

Lemma length_reshape_column (y : list Q) : length (reshape_column y) = length y.
Proof. apply length_fmap. Qed.

(** X5. When there are as many labels as feature rows, the three files
    are consecutive slices of the shuffled rows: put end to end they
    are the shuffled array, so every row [label :: features] lands in
    exactly one file; their sizes are given by the two cut points. *)
Theorem split_datasets_partition (y : list Q) (X_pre : list (list Q))
    (shuffle : list (list Q) → list (list Q)) (a b : nat) :
  (∀ X, shuffle X ≡ₚ X) →
  length y = length X_pre →
  a ≤ b →
  ∃ train validation test,
    split_datasets y X_pre shuffle a b = inr (train, validation, test)
    ∧ train ++ validation ++ test = shuffle (zip_with cons y X_pre)
    ∧ train ++ validation ++ test ≡ₚ zip_with cons y X_pre
    ∧ length train = a `min` length y
    ∧ length validation = (b `min` length y) - a
    ∧ length test = length y - b.
Proof.
  intros Hshuffle Hlen Hab. unfold split_datasets, concatenate_axis1.
  rewrite length_reshape_column, decide_True by done. cbn [and_then].
  rewrite zip_with_reshape_column. unfold np_split.
  set (X := shuffle (zip_with cons y X_pre)).
  assert (HX : length X = length y).
  { subst X. rewrite Hshuffle, length_zip_with. lia. }
  eexists _, _, _. split; [reflexivity|].
  assert (Hcat : take a X ++ drop a (take b X) ++ drop b X = X).
  { rewrite <- (take_drop b X) at 4. rewrite app_assoc. f_equal.
    rewrite <- (take_drop a (take b X)) at 2. f_equal.
    rewrite take_take. f_equal. lia. }
  split; [exact Hcat|]. split; [rewrite Hcat; apply Hshuffle|].
  rewrite length_take, length_drop, length_take, length_drop, HX. lia.
Qed.

Lemma split_datasets_partition_witness :
  ∃ train validation test,
    split_datasets [7; 9; 10; 8]%Q [[1; 0]; [0; 1]; [1; 1]; [0; 0]]%Q reverse 2 3
    = inr (train, validation, test)
    ∧ train ++ validation ++ test
      = [[8; 0; 0]; [10; 1; 1]; [9; 0; 1]; [7; 1; 0]]%Q
    ∧ length train = 2 ∧ length validation = 1 ∧ length test = 1.
Proof.
  destruct (split_datasets_partition [7; 9; 10; 8]%Q
              [[1; 0]; [0; 1]; [1; 1]; [0; 0]]%Q reverse 2 3)
    as (train & validation & test & Hrun & Hcat & _ & Hl1 & Hl2 & Hl3).
  - intros X. apply reverse_Permutation.
  - reflexivity.
  - lia.
  - exists train, validation, test. split; [exact Hrun|].
    split; [exact Hcat|]. split; [exact Hl1|]. split; [exact Hl2|exact Hl3].
Defined.

Lemma labels_and_features_rows (rows : list (list Q)) :
  rows ≠ [] →
  Forall (λ row, row ≠ []) rows →
  labels_and_features rows
  = inr ((λ row, default 0%Q (head row)) <$> rows, tail <$> rows).
Proof.
  intros Hne Hrows. unfold labels_and_features.
  assert (mapM (λ row : list Q, match row with
                                | [] => None
                                | v :: rest => Some (v, rest)
                                end) rows
          = Some ((λ row, (default 0%Q (head row), tail row)) <$> rows)) as ->.
  { clear Hne. apply mapM_Some. induction Hrows as [|[|v row] rows Hrow _ IH];
      [constructor|done|]. by constructor. }
  destruct rows as [|row rows]; [done|].
  by rewrite <- !list_fmap_compose.
Qed.

(** X6. What [evaluate.py] reads back from a file that holds rows of
    the array [label :: features], in any order, pairs each label with
    its own features: [iloc[:, 0]] and the frame without its first
    column are, row for row, a label and the feature row it was written
    with, and from the whole array they are the labels and the features
    themselves.  On a file without rows the script fails with
    [EmptyDataError]. *)
Theorem labels_and_features_of_written_rows (y : list Q)
    (X_pre file : list (list Q)) :
  length y = length X_pre →
  file ⊆ zip_with cons y X_pre →
  (file ≠ [] →
   ∃ labels features,
     labels_and_features file = inr (labels, features)
     ∧ length labels = length file ∧ length features = length file
     ∧ (∀ i v x, labels !! i = Some v → features !! i = Some x →
          file !! i = Some (v :: x)
          ∧ ∃ j, y !! j = Some v ∧ X_pre !! j = Some x))
  ∧ (y ≠ [] → labels_and_features (zip_with cons y X_pre) = inr (y, X_pre))
  ∧ (file = [] → labels_and_features file = inl empty_data_error).
Proof.
  intros Hlen Hsub.
  assert (Hrows : ∀ rows, rows ⊆ zip_with cons y X_pre →
            Forall (λ row, row ≠ []) rows).
  { intros rows Hrows. apply Forall_forall. intros row Hrow%Hrows.
    apply elem_of_lookup_zip_with in Hrow as (? & ? & ? & -> & _). done. }
  split; [|split].
  - intros Hfile.
    eexists _, _. split; [by apply labels_and_features_rows; [|apply Hrows]|].
    rewrite !length_fmap. split; [done|]. split; [done|].
    intros i v x Hv Hx.
    rewrite list_lookup_fmap in Hv. rewrite list_lookup_fmap in Hx.
    destruct (file !! i) as [row|] eqn:Hrow; [|done]. cbn in Hv, Hx.
    assert (row ∈ zip_with cons y X_pre) as Hin
      by (apply Hsub; by eapply list_elem_of_lookup_2).
    apply elem_of_lookup_zip_with in Hin as (j & v' & x' & -> & Hj1 & Hj2).
    cbn in Hv, Hx. simplify_eq. split; [done|]. eauto.
  - intros Hy. rewrite labels_and_features_rows.
    + f_equal. f_equal.
      * apply list_eq. intros i. rewrite list_lookup_fmap, lookup_zip_with.
        destruct (y !! i) as [v|] eqn:Hv; cbn; [|done].
        destruct (lookup_lt_is_Some_2 X_pre i) as [x ->]; [|done].
        apply lookup_lt_Some in Hv. lia.
      * apply list_eq. intros i. rewrite list_lookup_fmap, lookup_zip_with.
        destruct (X_pre !! i) as [x|] eqn:Hx; cbn.
        -- destruct (lookup_lt_is_Some_2 y i) as [v ->]; [|done].
           apply lookup_lt_Some in Hx. lia.
        -- by destruct (y !! i).
    + destruct y as [|v y]; [done|]. destruct X_pre as [|x X_pre]; done.
    + by apply Hrows.
  - by intros ->.
Qed.

Lemma labels_and_features_of_written_rows_witness :
  (∃ labels features,
     labels_and_features [[9; 0; 1]; [7; 1; 0]]%Q = inr (labels, features)
     ∧ length labels = 2 ∧ length features = 2)
  ∧ labels_and_features [[7; 1; 0]; [9; 0; 1]; [10; 1; 1]]%Q
    = inr ([7; 9; 10]%Q, [[1; 0]; [0; 1]; [1; 1]]%Q).
Proof.
  destruct (labels_and_features_of_written_rows [7; 9; 10]%Q
              [[1; 0]; [0; 1]; [1; 1]]%Q [[9; 0; 1]; [7; 1; 0]]%Q)
    as (Hfile & Hall & _).
  - reflexivity.
  - intros row [->|[->|[]%elem_of_nil]%elem_of_cons]%elem_of_cons;
      apply list_elem_of_In; cbn; auto.
  - split.
    + destruct Hfile as (labels & features & Hrun & Hl1 & Hl2 & _); [done|].
      exists labels, features. split; [exact Hrun|]. split; [exact Hl1|exact Hl2].
    + apply Hall. done.
Defined.

(** ** Failures inside the exception handlers *)

(** X7. When [create()] raises an exception that has no [response]
    attribute, or whose response has no ["Error"] entry, the handler
    itself fails: the caller sees an [AttributeError] and the original
    exception is lost; nothing is printed after the call. *)
Theorem create_feature_group_handler_fails (preamble : M unit)
    (fg : FeatureGroup) (label : string) (e : exn) (w w1 : world) :
  preamble w = (Return tt, w1) →
  create_error fg = Some e →
  is_Exception e = true →
  (exn_response e = None →
   create_feature_group preamble fg label w
   = (Raise (no_attribute "response"),
      {| polls := polls w1; trace := trace w1 ++ [EvCreate (name fg)] |}))
  ∧ (exn_response e = Some {| resp_Error := None |} →
     create_feature_group preamble fg label w
     = (Raise (no_attribute "get"),
        {| polls := polls w1; trace := trace w1 ++ [EvCreate (name fg)] |})).
Proof.
  intros Hpre Herr Hexn.
  rewrite (create_feature_group_raised preamble fg label e w w1) by done.
  cbn zeta. rewrite Hexn, bind_unfold. unfold error_code.
  split; intros ->; reflexivity.
Qed.

Lemma create_feature_group_handler_fails_witness :
  (create_customers_feature_group (group_failing_with value_error) world0).1
  = Raise (no_attribute "response").
Proof.
  unfold create_customers_feature_group.
  rewrite (proj1 (create_feature_group_handler_fails (mret tt)
                    (group_failing_with value_error) "customers" value_error
                    world0 world0 eq_refl eq_refl eq_refl) eq_refl).
  reflexivity.
Defined.

(** When the Data Wrangler load fails, whichever of its two reads
    raised, the cell goes on with the handler. *)
Lemma load_preprocessed_falls_back (env : Env) (w : world) :
  wrangler_load_fails env = true →
  ∃ w1,
    load_preprocessed env w
    = (print "Unable to load Data Wrangler output. Loading pre-made dataframes...";;
       claims_preprocessed ← call (EvCall "pd.read_csv") (pd_read_claims env);
       let claims_preprocessed :=
         set_column claims_preprocessed "event_time" (now env) in
       customers_preprocessed ← call (EvCall "pd.read_csv") (pd_read_customers env);
       let customers_preprocessed :=
         set_column customers_preprocessed "event_time" (now env) in
       print "Complete";;
       mret (claims_preprocessed, customers_preprocessed)) w1.
Proof.
  unfold wrangler_load_fails, load_preprocessed. rewrite try_except_unfold.
  destruct (wr_read_claims env) as [e|claims].
  - intros _. rewrite bind_call_inl. by eexists.
  - destruct (wr_read_customers env) as [e|customers]; [|done].
    intros _. rewrite bind_call_inr, bind_call_inl. by eexists.
Qed.

(** X8. The two fallbacks are not themselves guarded.  If reading a
    local copy fails after the Data Wrangler load failed, at either of
    its two reads, or the IAM lookup fails after [get_execution_role]
    raised [ValueError], the fallback's exception reaches the caller in
    place of the first one. *)
Theorem fallback_failures_propagate (env : Env) (e e' : exn) (w : world) :
  (wrangler_load_fails env = true →
   (pd_read_claims env = inl e' → (load_preprocessed env w).1 = Raise e')
   ∧ (∀ claims, pd_read_claims env = inr claims →
        pd_read_customers env = inl e' →
        (load_preprocessed env w).1 = Raise e'))
  ∧ (get_execution_role env = inl e → is_ValueError e = true →
     iam_get_role env = inl e' →
     (resolve_sagemaker_role env w).1 = Raise e').
Proof.
  split.
  - intros Hwr. destruct (load_preprocessed_falls_back env w Hwr) as [w1 ->].
    rewrite bind_print. split.
    + intros ->. by rewrite bind_call_inl.
    + intros claims -> ->. by rewrite bind_call_inr, bind_call_inl.
  - intros Hrole Hv Hiam. unfold resolve_sagemaker_role.
    rewrite try_except_unfold, Hrole, call_inl, Hv, Hiam. reflexivity.
Qed.

Lemma fallback_failures_propagate_witness :
  (load_preprocessed env_without_data world0).1
    = Raise (client_error "NoSuchFile")
  ∧ (load_preprocessed env_without_customers_output world0).1
    = Raise (client_error "NoSuchFile")
  ∧ (resolve_sagemaker_role env_without_data world0).1
    = Raise (client_error "AccessDenied").
Proof.
  pose proof (fallback_failures_propagate env_without_data name_error
                (client_error "NoSuchFile") world0) as [Hload _].
  pose proof (fallback_failures_propagate env_without_customers_output name_error
                (client_error "NoSuchFile") world0) as [Hload' _].
  pose proof (fallback_failures_propagate env_without_data value_error
                (client_error "AccessDenied") world0) as [_ Hrole].
  split; [|split].
  - apply (proj1 (Hload eq_refl)). reflexivity.
  - apply (proj2 (Hload' eq_refl) (tiny_frame ["policy_id"; "fraud"]));
      reflexivity.
  - apply Hrole; reflexivity.
Defined.

(** ** Writing a column *)

Lemma elem_of_positions (cols : list string) (c : string) (p : nat) :
  p ∈ positions cols c ↔ cols !! p = Some c.
Proof.
  unfold positions. rewrite list_elem_of_filter, elem_of_seq. split.
  - by intros [? _].
  - intros Hp. split; [done|]. apply lookup_lt_Some in Hp. lia.
Qed.

Lemma positions_nil (cols : list string) (c : string) :
  positions cols c = [] ↔ c ∉ cols.
Proof.
  split.
  - intros Hnil [p Hp]%list_elem_of_lookup.
    apply elem_of_positions in Hp. rewrite Hnil in Hp. by apply elem_of_nil in Hp.
  - intros Hc. destruct (positions cols c) as [|p ps] eqn:Hps; [done|].
    exfalso. apply Hc. assert (p ∈ positions cols c) as Hp by (rewrite Hps; left).
    apply elem_of_positions in Hp. by eapply list_elem_of_lookup_2.
Qed.

Lemma length_write_cells (v : string) (ps : list nat) (cells : list string) :
  length (foldr (λ i cells, <[i := v]> cells) cells ps) = length cells.
Proof. induction ps as [|p ps IH]; [done|]. cbn. by rewrite length_insert. Qed.

Lemma lookup_write_cells (v : string) (ps : list nat) (cells : list string)
    (p : nat) :
  foldr (λ i cells, <[i := v]> cells) cells ps !! p
  = if decide (p ∈ ps ∧ p < length cells) then Some v else cells !! p.
Proof.
  induction ps as [|q ps IH]; cbn [foldr].
  - rewrite decide_False; [done|]. intros [[]%elem_of_nil _].
  - destruct (decide (q = p)) as [->|Hne].
    + destruct (decide (p < length cells)) as [Hlt|Hge].
      * rewrite list_lookup_insert_eq by by rewrite length_write_cells.
        rewrite decide_True; [done|]. split; [left|done].
      * rewrite list_insert_ge by (rewrite length_write_cells; lia).
        rewrite IH. apply decide_ext. rewrite elem_of_cons. tauto.
    + rewrite list_lookup_insert_ne by done. rewrite IH.
      apply decide_ext. rewrite elem_of_cons. split; [tauto|].
      intros [[?|?] ?]; [congruence|done].
Qed.

(** X9. [df[c] = v] on a frame whose rows are aligned with its columns
    keeps them aligned and keeps the index; afterwards [c] is a column,
    every row holds [v] under each column labelled [c], and every other
    column keeps its place and its cells. *)
Theorem set_column_spec (df : DataFrame) (c v : string) :
  aligned df →
  aligned (set_column df c v)
  ∧ index (set_column df c v) = index df
  ∧ c ∈ columns (set_column df c v)
  ∧ (∀ r p, r ∈ records (set_column df c v) →
       columns (set_column df c v) !! p = Some c → r.2 !! p = Some v)
  ∧ (∀ c' p, c' ≠ c → columns df !! p = Some c' →
       columns (set_column df c v) !! p = Some c'
       ∧ ∀ i r r', records df !! i = Some r →
           records (set_column df c v) !! i = Some r' →
           r'.2 !! p = r.2 !! p).
Proof.
  intros Haligned. unfold aligned in *. rewrite Forall_forall in Haligned.
  unfold set_column.
  destruct (positions (columns df) c) as [|q qs] eqn:Hps.
  - apply positions_nil in Hps. cbn [columns records].
    split; [|split; [|split; [|split]]].
    + apply Forall_forall. intros r' [r [-> Hr]]%list_elem_of_fmap.
      cbn. rewrite !length_app, (Haligned r Hr). done.
    + unfold index. cbn [records]. rewrite <- list_fmap_compose.
      apply list_fmap_ext. by intros ? [].
    + rewrite elem_of_app, list_elem_of_singleton. by right.
    + intros r' p [r [-> Hr]]%list_elem_of_fmap Hp. cbn [snd].
      apply lookup_app_Some in Hp as [Hp|[Hge Hp]].
      { exfalso. apply Hps. by eapply list_elem_of_lookup_2. }
      apply list_lookup_singleton_Some in Hp as [Hp _].
      rewrite lookup_app_r by (rewrite (Haligned r Hr); lia).
      rewrite (Haligned r Hr). replace p with (length (columns df)) by lia.
      by rewrite Nat.sub_diag.
    + intros c' p Hne Hp. split; [by apply lookup_app_l_Some|].
      intros i r r' Hr Hr'. rewrite list_lookup_fmap, Hr in Hr'.
      cbn in Hr'. simplify_eq. cbn [snd].
      apply lookup_app_l. rewrite (Haligned r) by by eapply list_elem_of_lookup_2.
      by eapply lookup_lt_Some.
  - assert (Hsome : positions (columns df) c ≠ []) by by rewrite Hps.
    rewrite <- Hps. clear q qs Hps. cbn [columns records].
    split; [|split; [|split; [|split]]].
    + apply Forall_forall. intros r' [r [-> Hr]]%list_elem_of_fmap.
      cbn. rewrite length_write_cells. by apply Haligned.
    + unfold index. cbn [records]. rewrite <- list_fmap_compose.
      apply list_fmap_ext. by intros ? [].
    + destruct (decide (c ∈ columns df)) as [?|Hc]; [done|].
      by apply positions_nil in Hc.
    + intros r' p [r [-> Hr]]%list_elem_of_fmap Hp. cbn [snd].
      rewrite lookup_write_cells, decide_True; [done|].
      split; [by apply elem_of_positions|].
      rewrite (Haligned r Hr). by eapply lookup_lt_Some.
    + intros c' p Hne Hp. split; [done|].
      intros i r r' Hr Hr'. rewrite list_lookup_fmap, Hr in Hr'.
      cbn in Hr'. simplify_eq. cbn [snd].
      rewrite lookup_write_cells, decide_False; [done|].
      intros [Hin%elem_of_positions _]. congruence.
Qed.

Lemma set_column_spec_witness :
  aligned (set_column small_dataset "event_time" "1700000000.0")
  ∧ "event_time" ∈ columns (set_column small_dataset "event_time" "1700000000.0").
Proof.
  destruct (set_column_spec small_dataset "event_time" "1700000000.0")
    as (Haligned & _ & Hin & _).
  - unfold aligned. cbn. repeat constructor.
  - split; [exact Haligned|exact Hin].
Defined.

Lemma set_column_has_column (df : DataFrame) (c v : string) :
  c ∈ columns (set_column df c v).
Proof.
  unfold set_column.
  destruct (positions (columns df) c) as [|q qs] eqn:Hps; cbn [columns].
  - rewrite elem_of_app, list_elem_of_singleton. by right.
  - destruct (decide (c ∈ columns df)) as [?|Hc]; [done|].
    apply positions_nil in Hc. congruence.
Qed.

(** X10. When the Data Wrangler load fails, at either of its two
    reads, and the fallback returns, both frames carry an [event_time]
    column, so [event_time] is never among the feature columns of the
    join query, in whatever order the symmetric difference is listed. *)
Theorem fallback_event_time_not_a_feature (env : Env) (w w' : world)
    (claims customers : DataFrame) (fc : list string) :
  wrangler_load_fails env = true →
  load_preprocessed env w = (Return (claims, customers), w') →
  fc ≡ₚ feature_columns claims customers →
  "event_time" ∈ columns claims
  ∧ "event_time" ∈ columns customers
  ∧ "event_time" ∉ fc.
Proof.
  intros Hwr Hload Hperm.
  assert (Hboth : "event_time" ∈ columns claims ∧ "event_time" ∈ columns customers).
  { destruct (load_preprocessed_falls_back env w Hwr) as [w1 Hfall].
    rewrite Hfall, bind_print in Hload.
    destruct (pd_read_claims env) as [e1|c1];
      [by rewrite bind_call_inl in Hload|].
    rewrite bind_call_inr in Hload.
    destruct (pd_read_customers env) as [e2|c2];
      [by rewrite bind_call_inl in Hload|].
    rewrite bind_call_inr, bind_print in Hload.
    cbn [mret M_ret ret] in Hload. injection Hload as <- <- _.
    split; apply set_column_has_column. }
  destruct Hboth as [Hc1 Hc2]. split; [done|]. split; [done|].
  intros Hfc. apply (elem_of_feature_columns claims customers fc _ Hperm) in Hfc
    as [[_ Hn]|[_ Hn]]; done.
Qed.

Lemma fallback_event_time_not_a_feature_witness :
  "event_time" ∉
    feature_columns
      (set_column (tiny_frame ["policy_id"; "fraud"]) "event_time" "1700000000.0")
      (set_column (tiny_frame ["policy_id"; "customer_age"]) "event_time"
         "1700000000.0").
Proof.
  apply (fallback_event_time_not_a_feature env_without_wrangler
           world0 (load_preprocessed env_without_wrangler world0).2
           (set_column (tiny_frame ["policy_id"; "fraud"]) "event_time"
              "1700000000.0")
           (set_column (tiny_frame ["policy_id"; "customer_age"]) "event_time"
              "1700000000.0")
           _ eq_refl).
  - reflexivity.
  - reflexivity.
Defined.

(** ** Rows of the train and test frames *)

Lemma first_missing_Some {A} `{EqDecision A} (labels present : list A) (l : A) :
  first_missing labels present = Some l → l ∈ labels ∧ l ∉ present.
Proof.
  unfold first_missing.
  destruct (list_find (λ l, l ∉ present) labels) as [[i l']|] eqn:Hfind; [|done].
  intros [= <-]. apply list_find_Some in Hfind as (Hi & Hl & _).
  split; [by eapply list_elem_of_lookup_2|done].
Qed.

Lemma first_missing_None_inv {A} `{EqDecision A} (labels present : list A) :
  first_missing labels present = None → labels ⊆ present.
Proof.
  unfold first_missing.
  destruct (list_find (λ l, l ∉ present) labels) as [[i l']|] eqn:Hfind; [done|].
  intros _ l Hl. apply list_find_None in Hfind. rewrite Forall_forall in Hfind.
  destruct (decide (l ∈ present)); [done|]. by destruct (Hfind l Hl).
Qed.

Lemma getitem_columns_inr (df df' : DataFrame) (labels : list string) :
  getitem_columns df labels = inr df' →
  labels ⊆ columns df
  ∧ records df' = project_rows df labels
  ∧ index df' = index df.
Proof.
  unfold getitem_columns.
  destruct (first_missing labels (columns df)) eqn:Hmiss; [done|].
  intros [= <-]. split; [by apply first_missing_None_inv|]. split; [done|].
  unfold index. cbn [records]. rewrite <- list_fmap_compose.
  apply list_fmap_ext. by intros ? [].
Qed.

Lemma getitem_columns_total (df : DataFrame) (labels : list string) :
  labels ⊆ columns df → ∃ df', getitem_columns df labels = inr df'.
Proof.
  intros Hsub. unfold getitem_columns. rewrite first_missing_None by done. eauto.
Qed.

Lemma drop_rows_inr (df df' : DataFrame) (labels : list Z) :
  drop_rows df labels = inr df' →
  columns df' = columns df
  ∧ records df' = filter (λ r, r.1 ∉ labels) (records df).
Proof.
  unfold drop_rows. destruct (first_missing labels (index df)); [done|].
  by intros [= <-].
Qed.

(** The rows a sample picks are the rows whose label it picks, when
    labels are distinct. *)
Lemma sample_rows_by_label (df : DataFrame) (picks : list nat) :
  NoDup (index df) → NoDup picks →
  omap (λ p, records df !! p) picks
  ≡ₚ filter (λ r, r.1 ∈ omap (λ p, index df !! p) picks) (records df).
Proof.
  intros Hidx Hpicks.
  assert (Hrecords : NoDup (records df)) by by eapply NoDup_fmap_1.
  apply NoDup_Permutation.
  - by apply NoDup_omap_lookup.
  - by apply NoDup_filter.
  - intros r. rewrite list_elem_of_omap, list_elem_of_filter, list_elem_of_omap.
    split.
    + intros (p & Hp & Hr). split; [|by eapply list_elem_of_lookup_2].
      exists p. split; [done|]. unfold index. by rewrite list_lookup_fmap, Hr.
    + intros [(p & Hp & Hlabel) [i Hi]%list_elem_of_lookup].
      exists p. split; [done|].
      assert (index df !! i = Some r.1) as Hi'
        by (unfold index; by rewrite list_lookup_fmap, Hi).
      by rewrite (NoDup_lookup _ _ _ _ Hidx Hlabel Hi').
Qed.

(** X11. With distinct index labels and a generator that draws a
    permutation of the row positions, the rows of train followed by the
    rows of test are a rearrangement of the dataset's rows restricted to
    the ordered columns: no row is lost and none appears twice. *)
Theorem train_test_rows (dataset train test : DataFrame) (rng : list nat) :
  NoDup (index dataset) →
  rng ≡ₚ seq 0 (length (records dataset)) →
  train_test_split dataset rng = inr (train, test) →
  records train ++ records test
  ≡ₚ project_rows dataset
       ("fraud" :: filter (λ c, c ∉ ["fraud"; "policy_id"]) (columns dataset)).
Proof.
  intros Hidx Hperm Hrun. unfold train_test_split, col_order in Hrun.
  destruct (drop_columns dataset ["fraud"; "policy_id"]) as [?|rest] eqn:Hdrop;
    [by cbn in Hrun|].
  assert (Hrest : columns rest
                  = filter (λ c, c ∉ ["fraud"; "policy_id"]) (columns dataset)).
  { unfold drop_columns in Hdrop.
    destruct (first_missing _ _); [done|]. by injection Hdrop as <-. }
  cbn [and_then] in Hrun. rewrite Hrest in Hrun.
  set (order := "fraud" :: filter _ (columns dataset)) in *.
  destruct (getitem_columns (sample dataset (8 # 10) rng) order) as [?|tr] eqn:Htr;
    [by cbn in Hrun|].
  cbn [and_then] in Hrun.
  destruct (drop_rows dataset (index tr)) as [?|others] eqn:Hothers;
    [by cbn in Hrun|].
  cbn [and_then] in Hrun.
  destruct (getitem_columns others order) as [?|te] eqn:Hte; [by cbn in Hrun|].
  cbn [and_then] in Hrun. injection Hrun as <- <-.
  apply getitem_columns_inr in Htr as (_ & Htr_rows & Htr_idx).
  apply getitem_columns_inr in Hte as (_ & Hte_rows & _).
  apply drop_rows_inr in Hothers as (Hcols & Hothers_rows).
  rewrite Htr_rows, Hte_rows. unfold project_rows.
  rewrite Hcols, Hothers_rows. cbn [columns records sample].
  rewrite <- fmap_app. apply fmap_Permutation.
  rewrite Htr_idx, index_sample.
  set (picks := take _ rng).
  assert (Hpicks : NoDup picks).
  { subst picks. assert (NoDup rng) as Hrng by (rewrite Hperm; apply NoDup_seq).
    rewrite <- (take_drop (sample_size (8 # 10) (length (records dataset))) rng)
      in Hrng.
    by apply NoDup_app in Hrng as [? _]. }
  rewrite (sample_rows_by_label dataset picks) by done.
  apply (filter_app_complement
           (λ r, r.1 ∈ omap (λ p, index dataset !! p) picks)).
Qed.

Lemma train_test_rows_witness :
  ∃ train test,
    train_test_split small_dataset [3; 0; 4; 1; 2] = inr (train, test)
    ∧ records train ++ records test
      ≡ₚ project_rows small_dataset
           ["fraud"; "incident_severity"; "customer_age"].
Proof.
  destruct (train_test_split small_dataset [3; 0; 4; 1; 2])
    as [?|[train test]] eqn:Hrun; [by vm_compute in Hrun|].
  exists train, test. split; [reflexivity|].
  apply (train_test_rows small_dataset train test [3; 0; 4; 1; 2]).
  - by_evaluation.
  - by_evaluation.
  - exact Hrun.
Defined.

(** X12. The split succeeds exactly when the dataset has both a fraud and
    a policy_id column; otherwise it fails with [KeyError] on one of
    the two labels that is missing, before any row is sampled. *)
Theorem train_test_split_key_error (dataset : DataFrame) (rng : list nat) :
  ((∃ frames, train_test_split dataset rng = inr frames)
   ↔ "fraud" ∈ columns dataset ∧ "policy_id" ∈ columns dataset)
  ∧ (∀ e, train_test_split dataset rng = inl e →
       ∃ label, e = key_error label
                ∧ label ∈ ["fraud"; "policy_id"]
                ∧ label ∉ columns dataset).
Proof.
  assert (Hcases :
    ("fraud" ∈ columns dataset ∧ "policy_id" ∈ columns dataset
     ∧ ∃ frames, train_test_split dataset rng = inr frames)
    ∨ (∃ label, train_test_split dataset rng = inl (key_error label)
                ∧ label ∈ ["fraud"; "policy_id"] ∧ label ∉ columns dataset)).
  { unfold train_test_split, col_order, drop_columns.
    destruct (first_missing ["fraud"; "policy_id"] (columns dataset))
      as [label|] eqn:Hmiss.
    - right. exists label. split; [reflexivity|].
      by apply first_missing_Some in Hmiss.
    - left. apply first_missing_None_inv in Hmiss.
      assert ("fraud" ∈ columns dataset) as Hfraud by (apply Hmiss; left).
      assert ("policy_id" ∈ columns dataset) as Hpolicy
        by (apply Hmiss; right; left).
      split; [done|]. split; [done|]. cbn [and_then columns].
      set (order := "fraud" :: filter _ (columns dataset)).
      assert (Horder : order ⊆ columns dataset).
      { intros c [->|Hc%list_elem_of_filter]%elem_of_cons; [done|].
        by destruct Hc. }
      destruct (getitem_columns_total (sample dataset (8 # 10) rng) order Horder)
        as [tr Htr].
      rewrite Htr. cbn [and_then].
      pose proof (getitem_columns_inr _ _ _ Htr) as (_ & _ & Htr_idx).
      destruct (drop_rows_ok dataset (index tr)) as (others & Hothers & Hcols & _).
      { rewrite Htr_idx. apply index_sample_subseteq. }
      rewrite Hothers. cbn [and_then].
      destruct (getitem_columns_total others order) as [te Hte];
        [by rewrite Hcols|].
      rewrite Hte. cbn [and_then]. eauto. }
  split.
  - split.
    + intros [frames Hrun]. destruct Hcases as [(? & ? & _)|(label & Herr & _)];
        [done|congruence].
    + intros [Hf Hp].
      destruct Hcases as [(_ & _ & ?)|(label & _ & Hin & Hout)]; [done|].
      exfalso. apply Hout.
      by apply elem_of_cons in Hin as [->|[->|[]%elem_of_nil]%elem_of_cons].
  - intros e He. destruct Hcases as [(_ & _ & [frames Hrun])|(label & Herr & ?)];
      [congruence|].
    exists label. split; [congruence|done].
Qed.

Lemma train_test_split_key_error_witness :
  ∃ label,
    train_test_split (tiny_frame ["fraud"; "incident_hour"]) [0]
    = inl (key_error label)
    ∧ label ∉ ["fraud"; "incident_hour"].
Proof.
  destruct (proj2 (train_test_split_key_error
                     (tiny_frame ["fraud"; "incident_hour"]) [0])
              (key_error "policy_id") eq_refl)
    as (label & He & _ & Hout).
  exists label. split; [by rewrite <- He|exact Hout].
Defined.

(** ** The join query without feature columns *)

Lemma lex_alias_then_from (s : string) :
  lex Out (".policy_id as policy_id, " +:+ EmptyString +:+ nl +:+ "FROM " +:+ s)
  = cons TDot <$> (cons (TWord "policy_id") <$> (cons (TWord "as") <$>
      (cons (TWord "policy_id") <$> (cons TComma <$>
         (cons (TWord "FROM") <$> lex Out s))))).
Proof. reflexivity. Qed.

Lemma lex_join_query_no_features (claims_table customers_table : string) :
  quote_free claims_table = true →
  quote_free customers_table = true →
  lex Out (join_query claims_table customers_table [])
  = Some ([TWord "SELECT"; TWord "DISTINCT"; TQuoted claims_table; TDot;
           TWord "policy_id"; TWord "as"; TWord "policy_id"; TComma;
           TWord "FROM"; TQuoted claims_table;
           TWord "LEFT"; TWord "JOIN"; TQuoted customers_table;
           TWord "ON"; TQuoted claims_table; TDot; TWord "policy_id"; TEq;
           TQuoted customers_table; TDot; TWord "policy_id"]).
Proof.
  intros Hct Hcu.
  unfold join_query, query_string, feature_columns_string.
  cbn [fmap list_fmap String.concat]. rewrite !string_app_assoc.
  rewrite lex_select, lex_quoted, lex_alias_then_from by done.
  rewrite lex_quoted, lex_left_join, lex_quoted by done.
  rewrite lex_on, lex_quoted, lex_equals, lex_quoted by done.
  rewrite lex_end. reflexivity.
Qed.

(** X13. For table and column names that are non-empty and free of
    double quotes, the query is well formed exactly when there is at
    least one feature column: with none, the select list always ends
    in a comma directly followed by FROM. *)
Theorem join_query_well_formed_iff (claims_table customers_table : string)
    (fc : list string) :
  valid_name claims_table = true →
  valid_name customers_table = true →
  Forall (λ c, valid_name c = true) fc →
  (well_formed (join_query claims_table customers_table fc) = true ↔ fc ≠ []).
Proof.
  intros Hct Hcu Hfc. split.
  - intros Hwf ->.
    apply valid_name_parts in Hct as [Hct1 Hct2], Hcu as [Hcu1 Hcu2].
    unfold well_formed in Hwf. rewrite lex_join_query_no_features in Hwf by done.
    cbn [accepts step] in Hwf. rewrite Hct1 in Hwf. by cbn in Hwf.
  - intros Hne. by apply join_query_well_formed_names.
Qed.

Lemma join_query_well_formed_iff_witness :
  well_formed (join_query "claims" "customers" []) ≠ true
  ∧ well_formed (join_query "claims" "customers" ["fraud"]) = true.
Proof.
  split.
  - intros Hwf.
    by apply (join_query_well_formed_iff "claims" "customers" []
                eq_refl eq_refl (Forall_nil_2 _)) in Hwf.
  - apply (join_query_well_formed_iff "claims" "customers" ["fraud"]
             eq_refl eq_refl).
    + by repeat constructor.
    + done.
Defined.

(** ** Counting the feature columns *)

Lemma symmetric_difference_comm (X Y : gset string) :
  symmetric_difference X Y = symmetric_difference Y X.
Proof.
  apply set_eq. intros c. rewrite !elem_of_symmetric_difference. tauto.
Qed.

Lemma difference_disjoint_intersection (X Y : gset string) : X ∖ Y ## X ∩ Y.
Proof.
  apply elem_of_disjoint. intros c.
  rewrite elem_of_difference, elem_of_intersection. tauto.
Qed.

Lemma differences_disjoint (X Y : gset string) : X ∖ Y ## Y ∖ X.
Proof.
  apply elem_of_disjoint. intros c. rewrite !elem_of_difference. tauto.
Qed.

Lemma size_symmetric_difference (X Y : gset string) :
  size (symmetric_difference X Y) + 2 * size (X ∩ Y) = size X + size Y.
Proof.
  unfold symmetric_difference.
  rewrite size_union by apply differences_disjoint.
  assert (Hsplit : ∀ A B : gset string, size A = size (A ∖ B) + size (A ∩ B)).
  { intros A B. rewrite <- size_union by apply difference_disjoint_intersection.
    f_equal. apply set_eq. intros c.
    rewrite elem_of_union, elem_of_difference, elem_of_intersection.
    destruct (decide (c ∈ B)); tauto. }
  pose proof (Hsplit X Y) as HX. pose proof (Hsplit Y X) as HY.
  assert (Hcomm : size (Y ∩ X) = size (X ∩ Y)); [|lia].
  f_equal. apply set_eq. intros c. rewrite !elem_of_intersection. tauto.
Qed.

(** X14. The feature columns do not depend on which dataframe comes
    first, and with distinct labels in each dataframe their number is
    the two column counts together less twice the number of shared
    columns. *)
Theorem feature_columns_count (claims customers : DataFrame) :
  feature_columns claims customers ≡ₚ feature_columns customers claims
  ∧ (NoDup (columns claims) → NoDup (columns customers) →
     length (feature_columns claims customers)
     + 2 * length (filter (λ c, c ∈ columns customers) (columns claims))
     = length (columns claims) + length (columns customers)).
Proof.
  split.
  - unfold feature_columns. by rewrite symmetric_difference_comm.
  - intros Hc1 Hc2. unfold feature_columns.
    change (length (elements ?S)) with (size S).
    rewrite <- (size_list_to_set (C := gset string) (columns claims)) by done.
    rewrite <- (size_list_to_set (C := gset string) (columns customers)) by done.
    rewrite <- size_symmetric_difference. do 2 f_equal.
    rewrite <- (size_list_to_set (C := gset string)) by by apply NoDup_filter.
    f_equal. apply set_eq. intros c.
    rewrite elem_of_intersection, !elem_of_list_to_set, list_elem_of_filter.
    tauto.
Qed.

Lemma feature_columns_count_witness :
  length (feature_columns claims_frame customers_frame) + 2 * 2 = 31 + 19.
Proof.
  pose proof (proj2 (feature_columns_count claims_frame customers_frame)) as Hcount.
  assert (H1 : NoDup (columns claims_frame)) by by_evaluation.
  assert (H2 : NoDup (columns customers_frame)) by by_evaluation.
  exact (Hcount H1 H2).
Defined.

(** ** What the cells log *)

Lemma bind_mret {A B} (a : A) (k : A → M B) (w : world) :
  (mret a ≫= k) w = k a w.
Proof. reflexivity. Qed.

Lemma emits_only_ret {A} (P : event → Prop) (a : A) : emits_only P (mret a).
Proof. intros w. exists []. by rewrite app_nil_r. Qed.


Lemma emits_only_still_running {A} (P : event → Prop) :
  emits_only P (still_running (A := A)).
Proof. intros w. exists []. by rewrite app_nil_r. Qed.

Lemma emits_only_emit (P : event → Prop) (ev : event) :
  P ev → emits_only P (emit ev).
Proof. intros Hev w. exists [ev]. split; [done|]. by constructor. Qed.

Lemma emits_only_poll {A} (P : event → Prop) (ev : event) (answer : nat → A) :
  P ev → emits_only P (poll ev answer).
Proof. intros Hev w. exists [ev]. split; [done|]. by constructor. Qed.


Lemma emits_only_bind {A B} (P : event → Prop) (m : M A) (k : A → M B) :
  emits_only P m → (∀ a, emits_only P (k a)) → emits_only P (m ≫= k).
Proof.
  intros Hm Hk w. rewrite bind_unfold.
  destruct (Hm w) as (new1 & Hnew1 & HP1).
  destruct (m w) as [[a|e|] w1]; cbn [snd] in Hnew1.
  - destruct (Hk a w1) as (new2 & Hnew2 & HP2).
    exists (new1 ++ new2). rewrite Hnew2, Hnew1, app_assoc. split; [done|].
    by apply Forall_app.
  - by exists new1.
  - by exists new1.
Qed.

Lemma emits_only_while_offline_store_empty (P : event → Prop) (s3 : S3Client)
    (bucket prefix : string) (fuel : nat) :
  Forall P (offline_round bucket prefix) →
  ∀ contents,
    emits_only P (while_offline_store_empty fuel s3 bucket prefix contents).
Proof.
  intros HP. apply Forall_cons in HP as [Hlist HP].
  apply Forall_cons in HP as [Hprint HP]. apply Forall_cons in HP as [Hsleep _].
  induction fuel as [|fuel IH]; intros [contents|]; cbn [while_offline_store_empty];
    try apply emits_only_ret; [apply emits_only_still_running|].
  apply emits_only_bind; [by apply emits_only_poll|]. intros d.
  apply emits_only_bind; [|intros; apply IH].
  assert (Hwait : emits_only P
            (print "Waiting for data in offline store...";;
             sleep offline_poll_interval;; mret (M := M) (@None (list string)))).
  { apply emits_only_bind; [by apply emits_only_emit|]. intros _.
    apply emits_only_bind; [by apply emits_only_emit|]. intros _.
    apply emits_only_ret. }
  destruct (d !! "Contents") as [c|]; [|exact Hwait].
  case_bool_decide; [apply emits_only_ret|exact Hwait].
Qed.

(** ** The offline-store cell *)

(** X15. With both table names already defined, however long the wait
    lasts and whatever S3 answers, the cell first prints the claims
    prefix and from then on every [list_objects] call names the given
    bucket and the customers prefix; no feature group is described.
    The claims data is never looked for. *)
Theorem offline_store_cell_lists_customers_only (fuel : nat) (s3 : S3Client)
    (claims_fg customers_fg : FeatureGroup)
    (bucket prefix account_id region claims_table customers_table : string)
    (locals : gmap string string) (w : world) :
  locals !! "claims_table" = Some claims_table →
  locals !! "customers_table" = Some customers_table →
  ∃ new,
    trace (offline_store_cell fuel s3 claims_fg customers_fg bucket prefix
             account_id region locals w).2
    = trace w
      ++ EvPrint (offline_store_prefix prefix account_id region claims_table)
         :: new
    ∧ (∀ b p, EvListObjects b p ∈ new →
         b = bucket
         ∧ p = offline_store_prefix prefix account_id region customers_table)
    ∧ (∀ fg, EvDescribe fg ∉ new).
Proof.
  intros Hc1 Hc2. unfold offline_store_cell. rewrite Hc1, Hc2.
  rewrite !bind_mret, bind_print.
  set (cprefix := offline_store_prefix prefix account_id region customers_table).
  set (P := λ ev, ev ∈ EvPrint (nl +:+ "Data available.")
                       :: offline_round bucket cprefix).
  match goal with
  | |- context [(?m ≫= ?k) ?w1] =>
      assert (Hrest : emits_only P (m ≫= k)); [|destruct (Hrest w1) as (new & Hnew & HP)]
  end.
  { apply emits_only_bind; [|intros; apply emits_only_ret].
    unfold wait_for_offline_store.
    apply emits_only_bind.
    - apply emits_only_while_offline_store_empty.
      apply Forall_forall. intros ev Hev. by right.
    - intros contents. apply emits_only_bind; [|intros; apply emits_only_ret].
      apply emits_only_emit. by left. }
  exists new. rewrite Hnew. cbn [trace]. rewrite <- app_assoc.
  split; [done|]. rewrite Forall_forall in HP. split.
  - intros b p Hin%HP. unfold P, offline_round in Hin.
    by apply elem_of_cons in Hin
      as [?|[[= -> ->]|[?|[?|[]%elem_of_nil]%elem_of_cons]%elem_of_cons]%elem_of_cons].
  - intros fg Hin%HP. unfold P, offline_round in Hin.
    by apply elem_of_cons in Hin
      as [?|[?|[?|[?|[]%elem_of_nil]%elem_of_cons]%elem_of_cons]%elem_of_cons].
Qed.

Lemma offline_store_cell_lists_customers_only_witness :
  ∃ new,
    trace (offline_store_cell 3
             (scripted_s3 2 ∅ {["Contents" := ["part-0"; "part-1"]]})
             (scripted_group 0 "Created") (scripted_group 0 "Created")
             "bucket" "fraud-detect-demo" "1" "us-east-1"
             {["claims_table" := "claims-1"; "customers_table" := "customers-1"]}
             world0).2
    = EvPrint "fraud-detect-demo/1/sagemaker/us-east-1/offline-store/claims-1/data"
      :: new
    ∧ (∀ b p, EvListObjects b p ∈ new →
         b = "bucket"
         ∧ p = "fraud-detect-demo/1/sagemaker/us-east-1/offline-store/customers-1/data").
Proof.
  destruct (offline_store_cell_lists_customers_only 3
              (scripted_s3 2 ∅ {["Contents" := ["part-0"; "part-1"]]})
              (scripted_group 0 "Created") (scripted_group 0 "Created")
              "bucket" "fraud-detect-demo" "1" "us-east-1" "claims-1" "customers-1"
              {["claims_table" := "claims-1"; "customers_table" := "customers-1"]}
              world0)
    as (new & Hnew & Hlist & _).
  - reflexivity.
  - reflexivity.
  - exists new. split; [exact Hnew|exact Hlist].
Defined.

(** ** Requests for local worker threads *)










(** ** Re-running the ingest cell *)

Lemma bind_Return_inv {A B} (m : M A) (k : A → M B) (w w' : world) (b : B) :
  (m ≫= k) w = (Return b, w') →
  ∃ a w1, m w = (Return a, w1) ∧ k a w1 = (Return b, w').
Proof.
  rewrite bind_unfold. destruct (m w) as [[a|e|] w1]; [eauto|done|done].
Qed.

(** X16. Once the offline-store cell has returned, both table names are
    defined, a table name that was defined before has kept its value,
    the two prefix variables hold the prefixes built from the table
    names, [offline_store_contents] lists more than one object and,
    like [objects_in_bucket], is no string variable any more, and every
    variable other than the six the cell binds is unchanged;
    running the ingest cell afterwards ingests nothing: it only prints
    its notice.  On a fresh session, where [claims_table] is
    undefined, the ingest cell ingests the claims group and then, if
    that did not raise, the customers group. *)
Theorem ingest_cell_after_offline_store_cell (fuel : nat) (s3 : S3Client)
    (claims_fg customers_fg : FeatureGroup)
    (bucket prefix account_id region : string)
    (claims_outcome customers_outcome : exn + unit)
    (locals locals' : gmap string string) (contents : list string)
    (w w' : world) :
  (offline_store_cell fuel s3 claims_fg customers_fg bucket prefix
     account_id region locals w = (Return (locals', contents), w') →
   (∃ claims_table customers_table,
      locals' !! "claims_table" = Some claims_table
      ∧ locals' !! "customers_table" = Some customers_table
      ∧ (∀ t, locals !! "claims_table" = Some t → claims_table = t)
      ∧ (∀ t, locals !! "customers_table" = Some t → customers_table = t)
      ∧ locals' !! "claims_feature_group_s3_prefix"
        = Some (offline_store_prefix prefix account_id region claims_table)
      ∧ locals' !! "customers_feature_group_s3_prefix"
        = Some (offline_store_prefix prefix account_id region customers_table))
   ∧ 1 < length contents
   ∧ locals' !! "offline_store_contents" = None
   ∧ locals' !! "objects_in_bucket" = None
   ∧ (∀ x, x ∉ offline_store_cell_binds → locals' !! x = locals !! x)
   ∧ ingest_cell claims_fg customers_fg claims_outcome customers_outcome
       locals' w'
     = (Return tt,
        {| polls := polls w'; trace := trace w' ++ [EvPrint already_ingested] |}))
  ∧ (locals !! "claims_table" = None →
     ingest_cell claims_fg customers_fg claims_outcome customers_outcome locals w
     = match claims_outcome with
       | inl e =>
           (Raise e,
            {| polls := polls w;
               trace := trace w ++ [EvIngest (name claims_fg) 3 true] |})
       | inr _ =>
           (match customers_outcome with
            | inl e => Raise e
            | inr _ => Return tt
            end,
            {| polls := polls w;
               trace := trace w
                          ++ [EvIngest (name claims_fg) 3 true;
                              EvIngest (name customers_fg) 3 true] |})
       end).
Proof.
  split.
  - intros Hrun. unfold offline_store_cell in Hrun.
    apply bind_Return_inv in Hrun as (t1 & w1 & Ht1 & Hrun).
    apply bind_Return_inv in Hrun as (t2 & w2 & Ht2 & Hrun).
    apply bind_Return_inv in Hrun as ([] & w3 & _ & Hrun).
    apply bind_Return_inv in Hrun as (contents' & w4 & Hwait & Hrun).
    cbn [mret M_ret ret] in Hrun. injection Hrun as <- <- <-.
    split; [|split; [|split; [|split; [|split]]]].
    + exists t1, t2.
      split; [by rewrite !lookup_insert_ne, lookup_insert_eq by done|].
      split; [by rewrite !lookup_insert_ne, lookup_insert_eq by done|].
      split.
      { intros t Ht. rewrite Ht in Ht1. unfold mret, M_ret, ret in Ht1.
        congruence. }
      split.
      { intros t Ht. rewrite Ht in Ht2. unfold mret, M_ret, ret in Ht2.
        congruence. }
      split; [by rewrite !lookup_insert_ne, lookup_insert_eq by done|].
      by rewrite lookup_insert_eq.
    + by eapply wait_for_offline_store_returns.
    + by rewrite !lookup_insert_ne, lookup_delete_ne, lookup_delete_eq by done.
    + by rewrite !lookup_insert_ne, lookup_delete_eq by done.
    + intros x Hx. unfold offline_store_cell_binds in Hx.
      rewrite !not_elem_of_cons in Hx.
      destruct Hx as (? & ? & ? & ? & ? & ? & _).
      by rewrite !lookup_insert_ne, !lookup_delete_ne by done.
    + unfold ingest_cell.
      rewrite !lookup_insert_ne, lookup_insert_eq by done. reflexivity.
  - intros Hfresh. unfold ingest_cell, ingest. rewrite Hfresh.
    destruct claims_outcome as [e|[]].
    + rewrite bind_call_inl. reflexivity.
    + rewrite bind_call_inr. unfold call. cbn [polls trace].
      rewrite <- app_assoc. destruct customers_outcome as [e|[]]; reflexivity.
Qed.

Lemma ingest_cell_after_offline_store_cell_witness :
  ∃ locals' contents w',
    offline_store_cell 3
      (scripted_s3 2 ∅ {["Contents" := ["part-0"; "part-1"]]})
      (scripted_group 0 "Created") (scripted_group 0 "Created")
      "bucket" "fraud-detect-demo" "1" "us-east-1"
      {["claims_table" := "claims-1"; "customers_table" := "customers-1";
        "offline_store_contents" := "stale"; "region" := "us-east-1"]}
      world0
    = (Return (locals', contents), w')
    ∧ locals' !! "region" = Some "us-east-1"
    ∧ 1 < length contents
    ∧ (ingest_cell (scripted_group 0 "Created") (scripted_group 0 "Created")
         (inr tt) (inr tt) locals' w').1 = Return tt
    ∧ trace (ingest_cell (scripted_group 0 "Created") (scripted_group 0 "Created")
               (inr tt) (inr tt) locals' w').2
      = trace w' ++ [EvPrint already_ingested].
Proof.
  destruct (offline_store_cell 3
              (scripted_s3 2 ∅ {["Contents" := ["part-0"; "part-1"]]})
              (scripted_group 0 "Created") (scripted_group 0 "Created")
              "bucket" "fraud-detect-demo" "1" "us-east-1"
              {["claims_table" := "claims-1"; "customers_table" := "customers-1";
                "offline_store_contents" := "stale"; "region" := "us-east-1"]}
              world0) as [[[locals' contents]| |] w'] eqn:Hrun;
    [|by vm_compute in Hrun..].
  exists locals', contents, w'. split; [reflexivity|].
  destruct (proj1 (ingest_cell_after_offline_store_cell 3 _ _ _ _ _ _ _
                     (inr tt) (inr tt) _ locals' contents world0 w') Hrun)
    as (_ & Hcontents & _ & _ & Hkept & Hingest).
  split; [|split; [exact Hcontents|]].
  - rewrite Hkept; [reflexivity|]. by_evaluation.
  - rewrite Hingest. split; reflexivity.
Defined.

(** ** Waiting for both feature groups *)

Lemma describes_app (tr1 tr2 : list event) :
  describes (tr1 ++ tr2) = describes tr1 ++ describes tr2.
Proof. unfold describes. apply omap_app. Qed.

Lemma describes_creation_rounds (fg : FeatureGroup) (k : nat) :
  describes (concat (replicate k (creation_round fg))) = replicate k (name fg).
Proof.
  induction k as [|k IH]; [done|].
  cbn [replicate concat]. rewrite describes_app, IH. reflexivity.
Qed.

Lemma describes_poller (fg : FeatureGroup) (k : nat) :
  describes (EvDescribe (name fg) :: concat (replicate k (creation_round fg)))
  = replicate (S k) (name fg).
Proof.
  change (describes (EvDescribe (name fg) :: ?tr))
    with (name fg :: describes tr).
  by rewrite describes_creation_rounds.
Qed.

(** X17. The cell that waits for both feature groups polls the claims
    group until it leaves ["Creating"].  If its status is then not
    ["Created"] the cell raises the error naming the claims group and
    the customers group is never described.  Otherwise the customers
    group is polled in turn, its statuses being the answers that
    follow, and the cell returns or raises on its outcome; the sleeps
    are those of both loops, 5 s each. *)
Theorem wait_for_both_in_sequence (claims_fg customers_fg : FeatureGroup)
    (w : world) (fuel k1 : nat) :
  k1 ≤ fuel →
  (∀ i, i < k1 → status_at claims_fg w i = Some "Creating") →
  status_at claims_fg w k1 ≠ Some "Creating" →
  (status_at claims_fg w k1 ≠ Some "Created" →
   ∃ new,
     wait_for_both fuel claims_fg customers_fg w
     = (Raise (failed_to_create claims_fg),
        {| polls := polls w + S k1; trace := trace w ++ new |})
     ∧ describes new = replicate (S k1) (name claims_fg))
  ∧ (status_at claims_fg w k1 = Some "Created" →
     ∀ k2, k2 ≤ fuel →
       (∀ i, i < k2 → status_at customers_fg w (S k1 + i) = Some "Creating") →
       status_at customers_fg w (S k1 + k2) ≠ Some "Creating" →
       ∃ new,
         wait_for_both fuel claims_fg customers_fg w
         = (if decide (status_at customers_fg w (S k1 + k2) = Some "Created")
            then Return tt else Raise (failed_to_create customers_fg),
            {| polls := polls w + S k1 + S k2; trace := trace w ++ new |})
         ∧ describes new
           = replicate (S k1) (name claims_fg)
               ++ replicate (S k2) (name customers_fg)
         ∧ sleeps new = replicate (k1 + k2) 5).
Proof.
  intros Hfuel Hbusy Hexit. unfold wait_for_both. rewrite bind_unfold.
  rewrite (poller_settles claims_fg w k1 fuel) by done.
  split.
  - intros Hfailed. rewrite decide_False by done.
    eexists. split; [reflexivity|]. apply describes_poller.
  - intros Hcreated k2 Hfuel2 Hbusy2 Hexit2. rewrite decide_True by done.
    set (w1 := {| polls := polls w + S k1; trace := _ |}).
    assert (Hshift : ∀ i, status_at customers_fg w1 i
                          = status_at customers_fg w (S k1 + i)).
    { intros i. unfold status_at, w1. cbn [polls]. do 2 f_equal. lia. }
    rewrite (poller_settles customers_fg w1 k2 fuel);
      [|done|intros i Hi; rewrite Hshift; by apply Hbusy2|by rewrite Hshift].
    rewrite Hshift. unfold w1. cbn [polls trace].
    destruct (decide (status_at customers_fg w (S k1 + k2) = Some "Created")).
    + eexists. split; [rewrite <- app_assoc; reflexivity|]. split.
      * rewrite !app_comm_cons, !describes_app, !describes_poller.
        cbn. by rewrite ?app_nil_r.
      * rewrite !app_comm_cons, !sleeps_app, !sleeps_describe,
          !sleeps_creation_rounds.
        cbn. by rewrite ?app_nil_r, replicate_add.
    + eexists. split; [rewrite <- app_assoc; reflexivity|]. split.
      * rewrite !app_comm_cons, !describes_app, !describes_poller.
        cbn. by rewrite ?app_nil_r.
      * rewrite !app_comm_cons, !sleeps_app, !sleeps_describe,
          !sleeps_creation_rounds.
        cbn. by rewrite ?app_nil_r, replicate_add.
Qed.

Lemma wait_for_both_in_sequence_witness :
  ∃ new,
    wait_for_both 2 (scripted_group 1 "Created") (scripted_customers 3 "Created")
      world0
    = (Return tt, {| polls := 4; trace := new |})
    ∧ describes new
      = ["fraud-detect-demo-claims"; "fraud-detect-demo-claims";
         "fraud-detect-demo-customers"; "fraud-detect-demo-customers"]
    ∧ sleeps new = [5; 5].
Proof.
  refine (proj2 (wait_for_both_in_sequence (scripted_group 1 "Created")
                   (scripted_customers 3 "Created") world0 2 1 _ _ _) _ 1 _ _ _).
  - lia.
  - intros [|i] Hi; [reflexivity|lia].
  - by vm_compute.
  - reflexivity.
  - lia.
  - intros [|i] Hi; [reflexivity|lia].
  - by vm_compute.
Defined.

(** * The DJLServing entry point *)

Lemma djl_handle_loaded (loader : Djl.Loader) (g : Djl.Generator)
    (inputs : Djl.Input) (p : Djl.process) :
  Djl.predictor p = Some g →
  Djl.handle loader inputs p
  = (Djl.answer g inputs,
     {| Djl.predictor := Some g;
        Djl.calls := Djl.calls p
                       ++ match inputs with
                          | Some data => [Djl.Predict data]
                          | None => []
                          end |}).
Proof.
  intros Hp. unfold Djl.handle, Djl.answer. rewrite Hp.
  destruct p as [pr cs]. cbn in Hp. subst pr. cbn [Djl.predictor Djl.calls].
  destruct inputs as [data|].
  - by destruct (Djl.generate g data).
  - by rewrite app_nil_r.
Qed.

Lemma djl_loads_app (pr1 pr2 : option Djl.Generator) (cs new : list Djl.call) :
  Djl.loads {| Djl.predictor := pr1; Djl.calls := cs ++ new |}
  = Djl.loads {| Djl.predictor := pr2; Djl.calls := cs |}
    + length (filter (λ c, Djl.is_load c = true) new).
Proof. unfold Djl.loads. cbn [Djl.calls]. by rewrite filter_app, length_app. Qed.

Lemma djl_loads_get_model (pr : option Djl.Generator) (p : Djl.process) :
  Djl.loads {| Djl.predictor := pr; Djl.calls := Djl.calls p ++ [Djl.GetModel] |}
  = S (Djl.loads p).
Proof.
  unfold Djl.loads. cbn [Djl.calls]. rewrite filter_app, length_app.
  rewrite filter_cons_True by done. cbn. lia.
Qed.

Lemma djl_prompts_get_model (pr : option Djl.Generator) (p : Djl.process) :
  Djl.prompts {| Djl.predictor := pr; Djl.calls := Djl.calls p ++ [Djl.GetModel] |}
  = Djl.prompts p.
Proof.
  unfold Djl.prompts. cbn [Djl.calls]. rewrite omap_app. cbn.
  by rewrite app_nil_r.
Qed.

Lemma djl_no_load_in_predicts (ds : list string) :
  filter (λ c, Djl.is_load c = true) (Djl.Predict <$> ds) = [].
Proof. induction ds as [|d ds IH]; [done|]. cbn. exact IH. Qed.

Lemma djl_serve_loaded (loader : Djl.Loader) (g : Djl.Generator)
    (requests : list Djl.Input) (p : Djl.process) :
  Djl.predictor p = Some g →
  Djl.serve loader requests p
  = (Djl.answer g <$> requests,
     {| Djl.predictor := Some g;
        Djl.calls := Djl.calls p ++ (Djl.Predict <$> omap id requests) |}).
Proof.
  revert p. induction requests as [|inputs rest IH]; intros p Hp.
  - cbn. rewrite app_nil_r. destruct p as [pr cs]. cbn in Hp. by subst pr.
  - cbn [Djl.serve]. rewrite (djl_handle_loaded loader g) by done.
    rewrite IH by done. cbn [Djl.calls fmap list_fmap]. f_equal. f_equal.
    rewrite <- app_assoc. f_equal. by destruct inputs.
Qed.

Lemma djl_serve_loaded_spec (loader : Djl.Loader) (g : Djl.Generator)
    (requests : list Djl.Input) (p : Djl.process) :
  Djl.predictor p = Some g →
  (Djl.serve loader requests p).1 = Djl.answer g <$> requests
  ∧ Djl.predictor (Djl.serve loader requests p).2 = Some g
  ∧ Djl.loads (Djl.serve loader requests p).2 = Djl.loads p
  ∧ Djl.prompts (Djl.serve loader requests p).2
    = Djl.prompts p ++ omap id requests.
Proof.
  intros Hp. rewrite (djl_serve_loaded loader g) by done.
  cbn [fst snd Djl.predictor]. split; [done|]. split; [done|]. split.
  - rewrite (djl_loads_app _ (Djl.predictor p)), djl_no_load_in_predicts.
    destruct p. cbn. lia.
  - unfold Djl.prompts. cbn [Djl.calls]. rewrite omap_app. f_equal.
    induction (omap id requests) as [|d ds IH]; [done|]. cbn. by f_equal.
Qed.

(** X18. Once [predictor] holds a pipeline, [handle] never calls
    [get_model] again and never replaces the pipeline, whatever
    requests follow and whether or not the pipeline raises on them:
    each request is answered by that pipeline, an empty request by
    [None] without a prediction, and the prompts predicted are the
    texts of the non-empty requests, in order. *)
Theorem djl_model_loaded_once (loader : Djl.Loader) (g : Djl.Generator)
    (requests : list Djl.Input) (p : Djl.process) :
  Djl.predictor p = Some g →
  (Djl.serve loader requests p).1 = Djl.answer g <$> requests
  ∧ Djl.predictor (Djl.serve loader requests p).2 = Some g
  ∧ Djl.loads (Djl.serve loader requests p).2 = Djl.loads p
  ∧ Djl.prompts (Djl.serve loader requests p).2
    = Djl.prompts p ++ omap id requests.
Proof. apply djl_serve_loaded_spec. Qed.

Lemma djl_model_loaded_once_witness :
  (Djl.serve (Djl.loader_failing 0 (Djl.completing "!"))
     [Some "a"; None; Some "b"]
     {| Djl.predictor := Some (Djl.completing "?"); Djl.calls := [Djl.GetModel] |}).1
  = [inr (Some ["a?"]); inr None; inr (Some ["b?"])]
  ∧ Djl.loads
      (Djl.serve (Djl.loader_failing 0 (Djl.completing "!"))
         [Some "a"; None; Some "b"]
         {| Djl.predictor := Some (Djl.completing "?");
            Djl.calls := [Djl.GetModel] |}).2
    = 1.
Proof.
  destruct (djl_model_loaded_once (Djl.loader_failing 0 (Djl.completing "!"))
              (Djl.completing "?") [Some "a"; None; Some "b"]
              {| Djl.predictor := Some (Djl.completing "?");
                 Djl.calls := [Djl.GetModel] |} eq_refl)
    as (Hout & _ & Hloads & _).
  split; [exact Hout|exact Hloads].
Defined.

Lemma djl_handle_load_fails (loader : Djl.Loader) (e : exn)
    (inputs : Djl.Input) (p : Djl.process) :
  Djl.predictor p = None →
  loader (Djl.loads p) = inl e →
  Djl.handle loader inputs p
  = (inl e, {| Djl.predictor := None; Djl.calls := Djl.calls p ++ [Djl.GetModel] |}).
Proof.
  intros Hp He. unfold Djl.handle, Djl.get_model. rewrite Hp, He. reflexivity.
Qed.

Lemma djl_handle_load_succeeds (loader : Djl.Loader) (g : Djl.Generator)
    (inputs : Djl.Input) (p : Djl.process) :
  Djl.predictor p = None →
  loader (Djl.loads p) = inr g →
  Djl.handle loader inputs p
  = Djl.handle loader inputs
      {| Djl.predictor := Some g; Djl.calls := Djl.calls p ++ [Djl.GetModel] |}.
Proof.
  intros Hp Hg. unfold Djl.handle at 1. unfold Djl.get_model. rewrite Hp, Hg.
  cbn [Djl.calls Djl.predictor]. rewrite (djl_handle_loaded loader g) by done.
  unfold Djl.answer. cbn [Djl.calls].
  destruct inputs as [data|]; [|by rewrite app_nil_r].
  by destruct (Djl.generate g data).
Qed.

(** X19. While [predictor] is unset, every request, the empty warm-up
    request too, calls [get_model]; a request whose load raises fails
    with that exception, makes no prediction and leaves [predictor]
    unset.  So when the first [k] loads raise and the next one
    succeeds, the first [k] requests fail, the model is loaded [k + 1]
    times in all, and the requests from number [k] on are answered by
    the pipeline of the successful load. *)
Theorem djl_failed_load_is_retried (loader : Djl.Loader) (g : Djl.Generator)
    (errors : list exn) (requests : list Djl.Input) (p : Djl.process) :
  Djl.predictor p = None →
  (∀ i e, errors !! i = Some e → loader (Djl.loads p + i) = inl e) →
  loader (Djl.loads p + length errors) = inr g →
  length errors < length requests →
  (Djl.serve loader requests p).1
  = (inl <$> errors) ++ (Djl.answer g <$> drop (length errors) requests)
  ∧ Djl.predictor (Djl.serve loader requests p).2 = Some g
  ∧ Djl.loads (Djl.serve loader requests p).2
    = Djl.loads p + S (length errors)
  ∧ Djl.prompts (Djl.serve loader requests p).2
    = Djl.prompts p ++ omap id (drop (length errors) requests).
Proof.
  revert requests p. induction errors as [|e errors IH];
    intros requests p Hp Herr Hg Hlen.
  - destruct requests as [|inputs rest]; [cbn in Hlen; lia|].
    cbn [length] in Hg. rewrite Nat.add_0_r in Hg.
    cbn [Djl.serve]. rewrite (djl_handle_load_succeeds loader g) by done.
    set (p1 := {| Djl.predictor := Some g; Djl.calls := _ |}).
    change (let '(r, p2) := Djl.handle loader inputs p1 in
            let '(rs, p3) := Djl.serve loader rest p2 in (r :: rs, p3))
      with (Djl.serve loader (inputs :: rest) p1).
    destruct (djl_serve_loaded_spec loader g (inputs :: rest) p1 eq_refl)
      as (Hout & Hpred & Hloads & Hprompts).
    rewrite Hout, Hpred, Hloads, Hprompts. cbn [length drop fmap list_fmap app].
    split; [done|]. split; [done|]. split.
    + unfold p1. rewrite djl_loads_get_model. lia.
    + f_equal. apply djl_prompts_get_model.
  - destruct requests as [|inputs rest]; [cbn in Hlen; lia|].
    cbn [Djl.serve].
    rewrite (djl_handle_load_fails loader e).
    2: done.
    2: { specialize (Herr 0 e eq_refl). by rewrite Nat.add_0_r in Herr. }
    set (p1 := {| Djl.predictor := None; Djl.calls := _ |}).
    assert (Hloads1 : Djl.loads p1 = S (Djl.loads p))
      by apply djl_loads_get_model.
    assert (Hprompts1 : Djl.prompts p1 = Djl.prompts p)
      by apply djl_prompts_get_model.
    destruct (IH rest p1) as (Hout & Hpred & Hloads & Hprompts).
    + reflexivity.
    + intros i e' Hi. rewrite Hloads1.
      replace (S (Djl.loads p) + i) with (Djl.loads p + S i) by lia.
      by apply Herr.
    + rewrite Hloads1. cbn [length] in Hg.
      by replace (S (Djl.loads p) + length errors)
        with (Djl.loads p + S (length errors)) by lia.
    + cbn in Hlen. lia.
    + destruct (Djl.serve loader rest p1) as [rs p2].
      cbn [fst snd] in *. cbn [length drop fmap list_fmap app].
      rewrite Hout, Hpred, Hloads, Hprompts, Hloads1, Hprompts1.
      split; [done|]. split; [done|]. split; [lia|done].
Qed.

Lemma djl_failed_load_is_retried_witness :
  (Djl.serve (Djl.loader_failing 2 (Djl.completing "!"))
     [None; Some "a"; Some "b"; None] Djl.start).1
  = [inl Djl.out_of_memory; inl Djl.out_of_memory; inr (Some ["b!"]); inr None]
  ∧ Djl.loads
      (Djl.serve (Djl.loader_failing 2 (Djl.completing "!"))
         [None; Some "a"; Some "b"; None] Djl.start).2
    = 3
  ∧ Djl.prompts
      (Djl.serve (Djl.loader_failing 2 (Djl.completing "!"))
         [None; Some "a"; Some "b"; None] Djl.start).2
    = ["b"].
Proof.
  destruct (djl_failed_load_is_retried
              (Djl.loader_failing 2 (Djl.completing "!")) (Djl.completing "!")
              [Djl.out_of_memory; Djl.out_of_memory]
              [None; Some "a"; Some "b"; None] Djl.start)
    as (Hout & _ & Hloads & Hprompts).
  - reflexivity.
  - intros [|[|i]] e Hi; cbn in Hi; by simplify_eq.
  - reflexivity.
  - cbn. lia.
  - split; [exact Hout|]. split; [exact Hloads|exact Hprompts].
Defined.
